(** * Acoustic fingerprinting engine: a shallow embedding and its properties

    The development follows the Python sources module by module:
    [config.py], [core/utils.py], [fingerprinting.py], [database.py],
    [core/matcher.py] and [backend/service.py].

    Conventions.
    - Python [int] (and numpy integer indices) are [Z].
    - A Python [float] is a binary64 value ([spec_float], with the
      operations of the Standard Library's specification of IEEE 754)
      wherever its rounding or a NaN can be observed: in a configuration
      and in the computation of [dt_max].  The two quotients of ints
      [len(y) / sr] and [best_offset * hop_length / sr], and the SNR
      estimate, are kept as exact rationals [Q].
    - A [dict] is a [gmap]; a dict whose iteration order is observed
      (the vote table of the matcher) is an association list in insertion
      order.
    - A call that may raise has result type [outcome]. *)

From Stdlib Require Import ZArith QArith Qround Qabs Lia Sorted Permutation.
From Stdlib Require Import SpecFloat.
From stdpp Require Import gmap strings list fin_maps pretty.

Close Scope Q_scope.
Local Open Scope Z_scope.

(** ** Python run-time values shared by the modules *)

Inductive exn : Type :=
  | ValueError (msg : string)
  | NameError (name : string)
  | KeyError (key : string)
  | TypeError
  | ZeroDivisionError
  | OverflowError (msg : string)
  | OtherError (msg : string).

(** [str(e)] as used in the service's error messages. *)
Definition exn_str (e : exn) : string :=
  match e with
  | ValueError msg => msg
  | NameError name => "name '" +:+ name +:+ "' is not defined"
  | KeyError key => "'" +:+ key +:+ "'"
  | TypeError => "unsupported operand type(s)"
  | ZeroDivisionError => "division by zero"
  | OverflowError msg => msg
  | OtherError msg => msg
  end.

Inductive outcome (A : Type) : Type :=
  | Returns (a : A)
  | Raises (e : exn).
Arguments Returns {A} a.
Arguments Raises {A} e.

(** Sequencing: an exception aborts the rest of the block. *)
#[global] Instance outcome_ret : MRet outcome := fun A a => Returns a.
#[global] Instance outcome_bind : MBind outcome := fun A B k m =>
  match m with
  | Returns a => k a
  | Raises e => Raises e
  end.

(** Numbers stored in a metadata dict: the int [num_fingerprints] and
    the quotient [duration_seconds]. *)
Inductive num : Type :=
  | Int (z : Z)
  | Float (q : Q).

(** [int(x)] on an exact quotient: truncation toward zero. *)
Definition py_int (x : Q) : Z := Z.quot (Qnum x) (Zpos (Qden x)).

(** *** Binary64 floats *)

(** A [float] is zero, an infinity, NaN or a finite [(-1)^s * m * 2^e];
    products and quotients are rounded to the nearest value, ties to
    even. *)
Definition float : Type := spec_float.

Definition float_mul : float -> float -> float := SFmul 53 1024.
Definition float_div : float -> float -> float := SFdiv 53 1024.

(** An int as an exact, unrounded mantissa. *)
Definition int_mantissa (z : Z) : float :=
  match z with
  | Z0 => S754_zero false
  | Zpos p => S754_finite false p 0
  | Zneg p => S754_finite true p 0
  end.

(** The float that a decimal literal denotes, as [2.0] or [0.96]: the
    binary64 value nearest to it. *)
Definition float_literal (q : Q) : float :=
  float_div (int_mantissa (Qnum q)) (int_mantissa (Zpos (Qden q))).

(** [float(z)], the conversion applied to an int operand of a float
    operation. *)
Definition float_of_int (z : Z) : outcome float :=
  match binary_normalize 53 1024 z 0 false with
  | S754_infinity _ =>
      Raises (OverflowError "int too large to convert to float")
  | x => Returns x
  end.

(** [a / b] on two ints: the correctly rounded quotient. *)
Definition int_truediv (a b : Z) : outcome float :=
  if b =? 0 then Raises ZeroDivisionError
  else
    match float_div (int_mantissa a) (int_mantissa b) with
    | S754_infinity _ =>
        Raises (OverflowError "integer division result too large for a float")
    | x => Returns x
    end.

(** [x / y] on two floats. *)
Definition float_truediv (x y : float) : outcome float :=
  match y with
  | S754_zero _ => Raises ZeroDivisionError
  | _ => Returns (float_div x y)
  end.

(** [int(x)] on a float: truncation toward zero. *)
Definition int_of_float (x : float) : outcome Z :=
  match x with
  | S754_zero _ => Returns 0
  | S754_finite s m e =>
      let magnitude := Z.shiftl (Zpos m) e in
      Returns (if s then - magnitude else magnitude)
  | S754_infinity _ =>
      Raises (OverflowError "cannot convert float infinity to integer")
  | S754_nan => Raises (ValueError "cannot convert float NaN to integer")
  end.

(** [x <= 0] and [x < 0] on a float; both are false of NaN. *)
Definition float_le0 (x : float) : bool := SFleb x (S754_zero false).
Definition float_lt0 (x : float) : bool := SFltb x (S754_zero false).

(** A number held by a configuration: a Python int or float. *)
Inductive param : Type :=
  | PInt (z : Z)
  | PFloat (x : float).

(** [v <= 0] and [v < 0] on a configuration value. *)
Definition num_le0 (v : param) : bool :=
  match v with
  | PInt z => z <=? 0
  | PFloat x => float_le0 x
  end.

Definition num_lt0 (v : param) : bool :=
  match v with
  | PInt z => z <? 0
  | PFloat x => float_lt0 x
  end.

(** Values held by the result dictionaries of the interpreter. *)
Inductive pyval : Type :=
  | VBool (b : bool)
  | VInt (z : Z)
  | VStr (s : string).

(** ** config.py *)
Module Config.

Definition DEFAULT_CONFIG : gmap string param :=
  <["sr" := PInt 44100]>
  (<["n_fft" := PInt 2048]>
  (<["hop_ratio" := PInt 4]>
  (<["freq_neighborhood" := PInt 20]>
  (<["time_neighborhood" := PInt 20]>
  (<["amplitude_threshold" := PInt (-35)]>
  (<["num_bands" := PInt 6]>
  (<["fanout" := PInt 10]>
  (<["dt_min" := PInt 2]>
  (<["dt_max_seconds" := PFloat (float_literal (2 # 1))]> ∅))))))))).

Definition get_config : gmap string param := DEFAULT_CONFIG.

Definition required_keys : list string :=
  ["sr"; "n_fft"; "hop_ratio"; "freq_neighborhood";
   "time_neighborhood"; "amplitude_threshold"; "num_bands";
   "fanout"; "dt_min"; "dt_max_seconds"].

(** The loop [for key in required_keys: if key not in config: raise]. *)
Fixpoint check_keys (keys : list string) (config : gmap string param)
  : outcome unit :=
  match keys with
  | [] => Returns tt
  | key :: rest =>
      match config !! key with
      | None => Raises (ValueError ("Missing required config key: " +:+ key))
      | Some _ => check_keys rest config
      end
  end.

(** [config[key]] *)
Definition getitem (config : gmap string param) (key : string)
  : outcome param :=
  match config !! key with
  | Some v => Returns v
  | None => Raises (KeyError key)
  end.

(** [n & (n - 1) != 0]; the operator [&] is defined on ints only. *)
Definition not_power_of_two (v : param) : outcome bool :=
  match v with
  | PInt n => Returns (negb (Z.land n (n - 1) =? 0))
  | PFloat _ => Raises TypeError
  end.

Definition validate_config (config : gmap string param) : outcome bool :=
  _ ← check_keys required_keys config;
  sr ← getitem config "sr";
  if num_le0 sr then Raises (ValueError "sr must be positive") else
  n_fft ← getitem config "n_fft";
  bad_n_fft ←
    (if num_le0 n_fft then Returns true else not_power_of_two n_fft);
  if (bad_n_fft : bool)
  then Raises (ValueError "n_fft must be a positive power of 2") else
  hop_ratio ← getitem config "hop_ratio";
  if num_le0 hop_ratio then Raises (ValueError "hop_ratio must be positive") else
  num_bands ← getitem config "num_bands";
  if num_le0 num_bands then Raises (ValueError "num_bands must be positive") else
  fanout ← getitem config "fanout";
  if num_le0 fanout then Raises (ValueError "fanout must be positive") else
  dt_min ← getitem config "dt_min";
  if num_lt0 dt_min then Raises (ValueError "dt_min must be non-negative") else
  dt_max_seconds ← getitem config "dt_max_seconds";
  if num_le0 dt_max_seconds
  then Raises (ValueError "dt_max_seconds must be positive") else
  Returns true.

End Config.

(** ** core/utils.py *)
Module Utils.

Definition confidence_label (score : Z) : string :=
  if score <? 200 then "No match"
  else if score <? 1000 then "Low confidence"
  else if score <? 3000 then "Medium confidence"
  else "High confidence".

(** [f"{secs:02d}"] for a non-negative [secs]. *)
Definition fmt_02d (secs : Z) : string :=
  if secs <? 10 then "0" +:+ pretty secs else pretty secs.

Definition seconds_to_mmss (seconds : Q) : string :=
  let seconds := py_int (Qabs seconds) in
  let minutes := seconds / 60 in
  let secs := seconds mod 60 in
  pretty minutes +:+ ":" +:+ fmt_02d secs.

(** True division [a / b] of two ints. *)
Definition truediv (a b : Z) : outcome Q :=
  if b =? 0 then Raises ZeroDivisionError
  else Returns (Qdiv (inject_Z a) (inject_Z b)).

Definition interpret_match
    (song_name : option string) (best_offset : option Z) (score : Z)
    (hop_length sr : Z) : outcome (gmap string pyval) :=
  let confidence := confidence_label score in
  if String.eqb confidence "No match"
     || bool_decide (song_name = None) || bool_decide (best_offset = None)
  then
    Returns (<["matched" := VBool false]>
            (<["message" := VStr "No matching song detected"]>
            (<["raw_score" := VInt score]> ∅)))
  else
    match song_name, best_offset with
    | Some song, Some offset =>
        offset_seconds ← truediv (offset * hop_length) sr;
        let position := seconds_to_mmss offset_seconds in
        Returns (<["matched" := VBool true]>
                (<["song" := VStr song]>
                (<["position_in_song" := VStr position]>
                (<["confidence" := VStr confidence]>
                (<["raw_score" := VInt score]> ∅)))))
    | _, _ => Raises TypeError
    end.

End Utils.

(** ** fingerprinting.py *)
Module Fingerprinting.

(** A fingerprint is the tuple [(f1, f2, dt, t1)]; a peak is [(t, f)]. *)
Definition fingerprint : Type := Z * Z * Z * Z.
Definition peak : Type := Z * Z.

Definition fp_dt (fp : fingerprint) : Z :=
  let '(_, _, dt, _) := fp in dt.

Definition fp_anchor (fp : fingerprint) : peak :=
  let '(f1, _, _, t1) := fp in (t1, f1).

(** [n_fft // hop_ratio] *)
Definition floordiv (a b : Z) : outcome Z :=
  if b =? 0 then Raises ZeroDivisionError else Returns (a / b).

(** [int(dt_max_seconds * sr / hop_length)].  With a float
    [dt_max_seconds] each int operand is converted, and the product and
    the quotient are each rounded; with an int the product is exact and
    the quotient of the two ints is rounded once. *)
Definition dt_max_of (dt_max_seconds : param) (sr hop_length : Z)
  : outcome Z :=
  match dt_max_seconds with
  | PInt n =>
      x ← int_truediv (n * sr) hop_length;
      int_of_float x
  | PFloat seconds =>
      sr' ← float_of_int sr;
      let samples := float_mul seconds sr' in
      hop_length' ← float_of_int hop_length;
      x ← float_truediv samples hop_length';
      int_of_float x
  end.

(** [np.where(peaks)] on the 2-D boolean array [peaks[f][t]]: the
    coordinates of the true cells in row-major order, as the two index
    arrays [(freq_idx, time_idx)]. *)
Fixpoint row_where (f t : Z) (row : list bool) : list (Z * Z) :=
  match row with
  | [] => []
  | b :: rest => (if b then [(f, t)] else []) ++ row_where f (t + 1) rest
  end.

Fixpoint where_from (f : Z) (rows : list (list bool)) : list (Z * Z) :=
  match rows with
  | [] => []
  | row :: rest => row_where f 0 row ++ where_from (f + 1) rest
  end.

Definition np_where (peaks : list (list bool)) : list Z * list Z :=
  let cells := where_from 0 peaks in (map fst cells, map snd cells).

(** [peak_list.sort(key=lambda x: x[0])]: a stable sort on the time
    coordinate.  Each element is put in front of the first element whose
    key is not smaller, so equal keys keep their order. *)
Fixpoint insert_by_time (p : peak) (sorted : list peak) : list peak :=
  match sorted with
  | [] => [p]
  | q :: rest =>
      if fst p <=? fst q then p :: q :: rest
      else q :: insert_by_time p rest
  end.

Fixpoint sort_by_time (l : list peak) : list peak :=
  match l with
  | [] => []
  | p :: rest => insert_by_time p (sort_by_time rest)
  end.

Definition peak_list_of (peaks : list (list bool)) : list peak :=
  let '(freq_idx, time_idx) := np_where peaks in
  sort_by_time (combine time_idx freq_idx).

Section Pairing.
Variables (fanout dt_min dt_max : Z).

(** The inner loop [for j in range(i + 1, len(peak_list))] for the
    anchor [(t1, f1)], entered with the current [count]. *)
Fixpoint scan_targets (t1 f1 count : Z) (targets : list peak)
  : list fingerprint :=
  match targets with
  | [] => []
  | (t2, f2) :: rest =>
      let dt := t2 - t1 in
      if dt <? dt_min then scan_targets t1 f1 count rest
      else if dt_max <? dt then []
      else (f1, f2, dt, t1) ::
           (let count := count + 1 in
            if fanout <=? count then []
            else scan_targets t1 f1 count rest)
  end.

(** The outer loop [for i in range(len(peak_list))]. *)
Fixpoint pair_peaks (peak_list : list peak) : list fingerprint :=
  match peak_list with
  | [] => []
  | (t1, f1) :: rest => scan_targets t1 f1 0 rest ++ pair_peaks rest
  end.
End Pairing.

(** Objects bound to names inside [extract_fingerprints_with_snr_info]. *)
Inductive pyobj : Type :=
  | ObjFingerprints (fps : list fingerprint)
  | ObjFloat (x : Q)
  | ObjOther.

(** Names bound at module level in [fingerprinting.py]. *)
Definition module_globals : list string :=
  ["List"; "Tuple"; "np"; "librosa"; "maximum_filter";
   "extract_fingerprints"; "load_audio"; "compute_snr_estimate";
   "analyze_peak_distribution"; "extract_fingerprints_with_snr_info"].

(** Reading a name: the local scope first, then the module's. *)
Definition load_name (locals : gmap string pyobj) (name : string)
  : outcome pyobj :=
  match locals !! name with
  | Some v => Returns v
  | None =>
      if bool_decide (name ∈ module_globals) then Returns ObjOther
      else Raises (NameError name)
  end.

Section FrontEnd.
(** The numerical front end is kept abstract: [peak_mask] stands for
    the STFT, the conversion to dB and the banded maximum filter, and
    yields the boolean array [peaks] (rows are frequency bins, columns
    are frames) or raises; [compute_snr_estimate] is the function of
    that name. *)
Variable signal : Type.
Variable peak_mask :
  signal -> Z -> Z -> Z -> Z -> param -> Z -> outcome (list (list bool)).
Variable compute_snr_estimate : signal -> Z -> Z -> outcome Q.

Definition extract_fingerprints
    (y : signal) (sr n_fft hop_ratio freq_neighborhood
     time_neighborhood : Z) (amplitude_threshold : param)
    (num_bands fanout dt_min : Z) (dt_max_seconds : param)
  : outcome (list fingerprint) :=
  hop_length ← floordiv n_fft hop_ratio;
  peaks ← peak_mask y n_fft hop_length freq_neighborhood
            time_neighborhood amplitude_threshold num_bands;
  let peak_list := peak_list_of peaks in
  dt_max ← dt_max_of dt_max_seconds sr hop_length;
  Returns (pair_peaks fanout dt_min dt_max peak_list).

Definition extract_fingerprints_with_snr_info
    (y : signal) (sr n_fft hop_ratio freq_neighborhood
     time_neighborhood : Z) (amplitude_threshold : param)
    (num_bands fanout dt_min : Z) (dt_max_seconds : param)
  : outcome (pyobj * pyobj) :=
  fingerprints ← extract_fingerprints y sr n_fft hop_ratio
                   freq_neighborhood time_neighborhood
                   amplitude_threshold num_bands fanout dt_min
                   dt_max_seconds;
  hop_length ← floordiv n_fft hop_ratio;
  snr_db ← compute_snr_estimate y n_fft hop_length;
  let locals : gmap string pyobj :=
    <["snr_db" := ObjFloat snr_db]>
    (<["fingerprints" := ObjFingerprints fingerprints]>
    (list_to_map
       ((fun name => (name, ObjOther)) <$>
        ["y"; "sr"; "n_fft"; "hop_ratio"; "freq_neighborhood";
         "time_neighborhood"; "amplitude_threshold"; "num_bands";
         "fanout"; "dt_min"; "dt_max_seconds"]))) in
  r1 ← load_name locals "fingerprints";
  r2 ← load_name locals "snr_db_actual";
  Returns (r1, r2).
End FrontEnd.

End Fingerprinting.

(** ** database.py *)
Module Database.
Import Fingerprinting.

(** [Database = Dict[FingerprintHash, List[DatabaseEntry]]] *)
Abbreviation FingerprintHash := (Z * Z * Z)%type.
Abbreviation DatabaseEntry := (string * Z)%type.
Abbreviation Database := (gmap FingerprintHash (list DatabaseEntry)).
Abbreviation Metadata := (gmap string (gmap string num)).

(** [db[hash_key].append(entry)] on a [defaultdict(list)]. *)
Definition db_append (db : Database) (hash_key : FingerprintHash)
    (entry : DatabaseEntry) : Database :=
  <[hash_key := default [] (db !! hash_key) ++ [entry]]> db.

Definition add_fingerprints (song_name : string)
    (fingerprints : list fingerprint) (db : Database) : Database :=
  fold_left
    (fun db '(f1, f2, dt, t1) => db_append db (f1, f2, dt) (song_name, t1))
    fingerprints db.

(** [song_fingerprints] is given by its items, in the dict's order. *)
Definition build_song_database
    (song_fingerprints : list (string * list fingerprint))
  : Database * Metadata :=
  fold_left
    (fun '(db, metadata) '(song_name, fingerprints) =>
       (add_fingerprints song_name fingerprints db,
        <[song_name :=
            {["num_fingerprints" := Int (Z.of_nat (length fingerprints))]}]>
          metadata))
    song_fingerprints (∅, ∅).

(** The legacy single-song database: hash -> list of time offsets. *)
Abbreviation SingleDatabase := (gmap FingerprintHash (list Z)).

Definition build_single_song_db (fingerprints : list fingerprint)
  : SingleDatabase :=
  fold_left
    (fun db '(f1, f2, dt, t1) =>
       <[(f1, f2, dt) := default [] (db !! (f1, f2, dt)) ++ [t1]]> db)
    fingerprints ∅.

End Database.

(** ** core/matcher.py *)
Module Matcher.
Import Fingerprinting Database.

(** The vote table [votes = defaultdict(int)], keyed by
    [(song_name, offset)], in insertion order. *)
Abbreviation VoteKey := (string * Z)%type.
Abbreviation Votes := (list (VoteKey * Z)).

(** [votes[key] += 1] *)
Fixpoint vote (key : VoteKey) (votes : Votes) : Votes :=
  match votes with
  | [] => [(key, 1)]
  | (k, n) :: rest =>
      if bool_decide (k = key) then (k, n + 1) :: rest
      else (k, n) :: vote key rest
  end.

(** [for song_name, t_db in db[hash_key]: ...] *)
Definition vote_bucket (t_query : Z) (bucket : list DatabaseEntry)
    (votes : Votes) : Votes :=
  fold_left
    (fun votes '(song_name, t_db) => vote (song_name, t_db - t_query) votes)
    bucket votes.

Definition tally (query_fingerprints : list fingerprint) (db : Database)
  : Votes :=
  fold_left
    (fun votes '(f1, f2, dt, t_query) =>
       match db !! (f1, f2, dt) with
       | Some bucket => vote_bucket t_query bucket votes
       | None => votes
       end)
    query_fingerprints [].

(** [max(votes, key=votes.get)]: the first key, in iteration order, that
    has the greatest count; the count stored with a key is
    [votes.get(key)]. *)
Fixpoint max_from (best : VoteKey) (best_n : Z) (rest : Votes)
  : VoteKey * Z :=
  match rest with
  | [] => (best, best_n)
  | (k, n) :: rest' =>
      if best_n <? n then max_from k n rest' else max_from best best_n rest'
  end.

Definition query_multi_song (query_fingerprints : list fingerprint)
    (db : Database) : option string * option Z * Z :=
  match tally query_fingerprints db with
  | [] => (None, None, 0)
  | (k, n) :: rest =>
      let '((song_name, offset), score) := max_from k n rest in
      (Some song_name, Some offset, score)
  end.

(** The vote table [offset_votes = defaultdict(int)] of
    [query_single_song], keyed by the offset, in insertion order. *)
Abbreviation OffsetVotes := (list (Z * Z)).

(** [offset_votes[offset] += 1] *)
Fixpoint vote_offset (offset : Z) (offset_votes : OffsetVotes)
  : OffsetVotes :=
  match offset_votes with
  | [] => [(offset, 1)]
  | (k, n) :: rest =>
      if bool_decide (k = offset) then (k, n + 1) :: rest
      else (k, n) :: vote_offset offset rest
  end.

Definition tally_offsets (query_fingerprints : list fingerprint)
    (db : SingleDatabase) : OffsetVotes :=
  fold_left
    (fun offset_votes '(f1, f2, dt, t_query) =>
       match db !! (f1, f2, dt) with
       | Some times =>
           fold_left
             (fun offset_votes t_db => vote_offset (t_db - t_query) offset_votes)
             times offset_votes
       | None => offset_votes
       end)
    query_fingerprints [].

(** [max(offset_votes, key=offset_votes.get)] *)
Fixpoint max_offset_from (best best_n : Z) (rest : OffsetVotes) : Z * Z :=
  match rest with
  | [] => (best, best_n)
  | (k, n) :: rest' =>
      if best_n <? n then max_offset_from k n rest'
      else max_offset_from best best_n rest'
  end.

Definition query_single_song (query_fingerprints : list fingerprint)
    (db : SingleDatabase) : option Z * Z :=
  match tally_offsets query_fingerprints db with
  | [] => (None, 0)
  | (k, n) :: rest =>
      let '(best_offset, score) := max_offset_from k n rest in
      (Some best_offset, score)
  end.

(** [config[key]] where the callee needs an int. *)
Definition getitem_int (config : gmap string param) (key : string)
  : outcome Z :=
  v ← Config.getitem config key;
  match v with
  | PInt z => Returns z
  | PFloat _ => Raises TypeError
  end.

Section Recognize.
(** [peak_mask] is the numerical front end of [Fingerprinting]. *)
Variable signal : Type.
Variable peak_mask :
  signal -> Z -> Z -> Z -> Z -> param -> Z -> outcome (list (list bool)).

(** The high-level [recognize_audio] of [matcher.py]. *)
Definition recognize_audio (query_audio : signal) (db : Database)
    (config : gmap string param) : outcome (option string * option Z * Z) :=
  sr ← getitem_int config "sr";
  n_fft ← getitem_int config "n_fft";
  hop_ratio ← getitem_int config "hop_ratio";
  freq_neighborhood ← getitem_int config "freq_neighborhood";
  time_neighborhood ← getitem_int config "time_neighborhood";
  amplitude_threshold ← Config.getitem config "amplitude_threshold";
  num_bands ← getitem_int config "num_bands";
  fanout ← getitem_int config "fanout";
  dt_min ← getitem_int config "dt_min";
  dt_max_seconds ← Config.getitem config "dt_max_seconds";
  query_fingerprints ←
    extract_fingerprints signal peak_mask query_audio sr n_fft hop_ratio
      freq_neighborhood time_neighborhood amplitude_threshold num_bands
      fanout dt_min dt_max_seconds;
  Returns (query_multi_song query_fingerprints db).
End Recognize.

End Matcher.

(** ** backend/service.py *)
Module Service.
Import Fingerprinting Database Matcher.

(** What a path of the file system holds: bytes that do not unpickle to
    a dict, or a pickled dict, of which only the keys ['db'] and
    ['metadata'] are ever read. *)
Inductive file : Type :=
  | Unreadable
  | Pickled (db : option Database) (metadata : option Metadata).

Record disk : Type := Disk {
  files : gmap string file;
  read_only : bool
}.

Record service : Type := AudioFingerprintingService {
  db_path : string;
  db : Database;
  metadata : Metadata;
  config : gmap string param
}.

Definition set_db (s : service) (db' : Database) : service :=
  AudioFingerprintingService (db_path s) db' (metadata s) (config s).

Definition set_metadata (s : service) (metadata' : Metadata) : service :=
  AudioFingerprintingService (db_path s) (db s) metadata' (config s).

Definition load_database (s : service) (d : disk) : service * bool :=
  match files d !! db_path s with
  | Some (Pickled data_db data_metadata) =>
      (set_metadata (set_db s (default ∅ data_db)) (default ∅ data_metadata),
       true)
  | Some Unreadable => (s, false)
  | None => (s, false)
  end.

Definition save_database (s : service) (d : disk) : disk * bool :=
  if read_only d then (d, false)
  else (Disk (<[db_path s := Pickled (Some (db s)) (Some (metadata s))]>
                (files d)) (read_only d),
        true).

(** [__init__] *)
Definition init (db_path : string) (d : disk) : service :=
  fst (load_database
         (AudioFingerprintingService db_path ∅ ∅ Config.DEFAULT_CONFIG) d).

(** Reading a configuration entry where the callee needs an int; a
    float in the place of an int makes the callee raise. *)
Definition config_int (s : service) (key : string) : outcome Z :=
  v ← Config.getitem (config s) key;
  match v with
  | PInt z => Returns z
  | PFloat _ => Raises TypeError
  end.

(** The merge loop of [add_song]:
    [if hash_key in self.db: self.db[hash_key].extend(entries)
     else: self.db[hash_key] = entries]. *)
Definition merge_db (db new_db : Database) : Database :=
  union_with (fun old entries => Some (old ++ entries)) db new_db.

(** Values of the dictionaries listed by [get_songs_list]. *)
Inductive listval : Type :=
  | LStr (s : string)
  | LNum (n : num)
  | LNone.

(** The result of [get_songs_list]; its fields are the keys of the
    returned dict. *)
Record songs_list : Type := SongsList {
  songs : list (gmap string listval);
  total_songs : Z;
  total_hashes : Z
}.

(** One element of [songs]. *)
Definition song_entry (song_name : string) (meta : gmap string num)
  : gmap string listval :=
  <["name" := LStr song_name]>
  (<["fingerprints_count" :=
       LNum (default (Int 0) (meta !! "num_fingerprints"))]>
  (<["duration_seconds" :=
       match meta !! "duration_seconds" with
       | Some x => LNum x
       | None => LNone
       end]> ∅)).

(** The loop [for song_name, meta in self.metadata.items()] visits the
    entries in the order of [map_to_list]; the insertion order of the
    Python dict is not recorded by the map, so only statements that do not
    depend on the order of [songs] are meaningful. *)
Definition get_songs_list (s : service) : songs_list :=
  let songs :=
    (fun '(song_name, meta) => song_entry song_name meta)
      <$> map_to_list (metadata s) in
  SongsList songs (Z.of_nat (length songs)) (Z.of_nat (size (db s))).

Section FrontEnd.
(** [load_audio] decodes a file (or raises) and [len] is the length
    of the decoded signal; [peak_mask] is as in [Fingerprinting]. *)
Variable signal : Type.
Variable load_audio : string -> Z -> outcome signal.
Variable len : signal -> Z.
Variable peak_mask :
  signal -> Z -> Z -> Z -> Z -> param -> Z -> outcome (list (list bool)).

(** The call [extract_fingerprints(y=..., sr=sr, n_fft=self.config[...], ...)]. *)
Definition extract_with_config (s : service) (y : signal) (sr : Z)
  : outcome (list fingerprint) :=
  n_fft ← config_int s "n_fft";
  hop_ratio ← config_int s "hop_ratio";
  freq_neighborhood ← config_int s "freq_neighborhood";
  time_neighborhood ← config_int s "time_neighborhood";
  amplitude_threshold ← Config.getitem (config s) "amplitude_threshold";
  num_bands ← config_int s "num_bands";
  fanout ← config_int s "fanout";
  dt_min ← config_int s "dt_min";
  dt_max_seconds ← Config.getitem (config s) "dt_max_seconds";
  extract_fingerprints signal peak_mask y sr n_fft hop_ratio
    freq_neighborhood time_neighborhood amplitude_threshold
    num_bands fanout dt_min dt_max_seconds.

Definition add_song (s : service) (d : disk)
    (audio_path song_name : string)
  : service * disk * (bool * Z * string) :=
  let failed (s' : service) (e : exn) :=
    (s', d, (false, 0, "Error adding song: " +:+ exn_str e)) in
  match (sr ← config_int s "sr";
         y ← load_audio audio_path sr;
         fingerprints ← extract_with_config s y sr;
         Returns (sr, y, fingerprints)) with
  | Raises e => failed s e
  | Returns (sr, y, fingerprints) =>
      let '(new_db, new_metadata) :=
        build_song_database [(song_name, fingerprints)] in
      let s1 := set_db s (merge_db (db s) new_db) in
      match new_metadata !! song_name with
      | None => failed s1 (KeyError song_name)
      | Some meta =>
          let s2 := set_metadata s1 (<[song_name := meta]> (metadata s1)) in
          match Utils.truediv (len y) sr with
          | Raises e => failed s2 e
          | Returns duration =>
              let s3 :=
                set_metadata s2
                  (<[song_name :=
                       <["duration_seconds" := Float duration]> meta]>
                     (metadata s2)) in
              let '(d', _) := save_database s3 d in
              (s3, d',
               (true, Z.of_nat (length fingerprints),
                "Successfully added " +:+ song_name))
          end
      end
  end.

(** The body of the [try] block of [recognize_audio]. *)
Definition recognize_try (s : service) (audio_path : string)
  : outcome (gmap string pyval) :=
  sr ← config_int s "sr";
  y_query ← load_audio audio_path sr;
  query_fingerprints ← extract_with_config s y_query sr;
  let '(song_name, offset, score) :=
    query_multi_song query_fingerprints (db s) in
  n_fft ← config_int s "n_fft";
  hop_ratio ← config_int s "hop_ratio";
  hop_length ← floordiv n_fft hop_ratio;
  sr' ← config_int s "sr";
  Utils.interpret_match song_name offset score hop_length sr'.

(** [try: ... except Exception as e: return {...}] *)
Definition recognize_audio (s : service) (audio_path : string)
  : gmap string pyval :=
  match recognize_try s audio_path with
  | Returns result => result
  | Raises e =>
      <["matched" := VBool false]>
      (<["message" := VStr ("Error during recognition: " +:+ exn_str e)]> ∅)
  end.
End FrontEnd.

End Service.

(** ** Vocabulary of the statements *)

Import Utils.

(** The dictionary of the non-match branch. *)
Definition no_match_result (score : Z) : gmap string pyval :=
  <["matched" := VBool false]>
  (<["message" := VStr "No matching song detected"]>
  (<["raw_score" := VInt score]> ∅)).

Import Config.

(** [0 < v] and [0 <= v] on a configuration value, and the float NaN,
    of which every comparison is false. *)
Definition num_pos (v : param) : Prop :=
  match v with
  | PInt z => 0 < z
  | PFloat x => SFltb (S754_zero false) x = true
  end.

Definition num_nonneg (v : param) : Prop :=
  match v with
  | PInt z => 0 ≤ z
  | PFloat x => SFleb (S754_zero false) x = true
  end.

Definition num_nan (v : param) : Prop := v = PFloat S754_nan.

Definition power_of_two (n : Z) : Prop := ∃ k, 0 ≤ k ∧ n = 2 ^ k.

(** What [validate_config] checks: the ten keys are present, and seven
    of them pass their range test; a NaN passes, since [nan <= 0] and
    [nan < 0] are false. *)
Definition checked_constraints (config : gmap string param) : Prop :=
  (∀ key, key ∈ required_keys → is_Some (config !! key)) ∧
  ∃ sr n_fft hop_ratio num_bands fanout dt_min dt_max_seconds,
    config !! "sr" = Some sr ∧ (num_pos sr ∨ num_nan sr) ∧
    config !! "n_fft" = Some (PInt n_fft) ∧ 0 < n_fft ∧ power_of_two n_fft ∧
    config !! "hop_ratio" = Some hop_ratio ∧
      (num_pos hop_ratio ∨ num_nan hop_ratio) ∧
    config !! "num_bands" = Some num_bands ∧
      (num_pos num_bands ∨ num_nan num_bands) ∧
    config !! "fanout" = Some fanout ∧ (num_pos fanout ∨ num_nan fanout) ∧
    config !! "dt_min" = Some dt_min ∧ (num_nonneg dt_min ∨ num_nan dt_min) ∧
    config !! "dt_max_seconds" = Some dt_max_seconds ∧
      (num_pos dt_max_seconds ∨ num_nan dt_max_seconds).

(** The constraint column of the configuration table, as the
    specification words it. *)
Definition table_constraints (config : gmap string param) : Prop :=
  ∃ sr n_fft hop_ratio freq_neighborhood time_neighborhood
    amplitude_threshold num_bands fanout dt_min dt_max_seconds,
    config !! "sr" = Some (PInt sr) ∧ 0 < sr ∧
    config !! "n_fft" = Some (PInt n_fft) ∧ 0 < n_fft ∧ power_of_two n_fft ∧
    config !! "hop_ratio" = Some (PInt hop_ratio) ∧
      0 < hop_ratio ∧ (hop_ratio | n_fft) ∧
    config !! "freq_neighborhood" = Some (PInt freq_neighborhood) ∧
      1 ≤ freq_neighborhood ∧
    config !! "time_neighborhood" = Some (PInt time_neighborhood) ∧
      1 ≤ time_neighborhood ∧
    config !! "amplitude_threshold" = Some amplitude_threshold ∧
    config !! "num_bands" = Some (PInt num_bands) ∧
      1 ≤ num_bands ∧ 2 * num_bands ≤ n_fft ∧
    config !! "fanout" = Some (PInt fanout) ∧ 1 ≤ fanout ∧
    config !! "dt_min" = Some (PInt dt_min) ∧ 0 ≤ dt_min ∧
    config !! "dt_max_seconds" = Some dt_max_seconds ∧ num_pos dt_max_seconds.

(** The default configuration with a hop ratio that does not divide
    [n_fft], an empty frequency neighbourhood and more bands than
    [n_fft / 2]. *)
Definition off_table_config : gmap string param :=
  <["hop_ratio" := PInt 3]>
  (<["freq_neighborhood" := PInt 0]>
  (<["num_bands" := PInt 2000]> DEFAULT_CONFIG)).

(** An accepted configuration whose [dt_max_seconds] is NaN. *)
Definition nan_config : gmap string param :=
  <["dt_max_seconds" := PFloat S754_nan]> DEFAULT_CONFIG.

Import Fingerprinting.

(** A concrete front end for examples: the signal is its own peak mask,
    and the SNR estimate is constant. *)
Definition mask_front_end
    (y : list (list bool)) (_ _ _ _ : Z) (_ : param) (_ : Z)
  : outcome (list (list bool)) := Returns y.

Definition constant_snr (_ : list (list bool)) (_ _ : Z) : outcome Q :=
  Returns (inject_Z 100).

(** The strict order of the peak list: by time, ties by frequency. *)
Definition peak_lt (a b : peak) : Prop :=
  fst a < fst b ∨ (fst a = fst b ∧ snd a < snd b).

(** Row-major order of the cells [(f, t)] of the peak array, and the
    same order read on the zipped pairs [(t, f)]. *)
Definition cell_lt (a b : Z * Z) : Prop :=
  fst a < fst b ∨ (fst a = fst b ∧ snd a < snd b).

Definition zipped_lt (a b : peak) : Prop :=
  snd a < snd b ∨ (snd a = snd b ∧ fst a < fst b).

Import Database.

(** The hash key [(f1, f2, dt)] of a fingerprint. *)
Definition fp_key (fp : fingerprint) : Z * Z * Z :=
  let '(f1, f2, dt, _) := fp in (f1, f2, dt).

(** A small peak array: three frequency rows, five frames. *)
Definition sample_mask : list (list bool) :=
  [[true; false; false; true; false];
   [false; true; false; false; true];
   [true; false; true; false; false]].

(** One frequency bin with two peaks, 30 frames apart. *)
Definition gap_mask : list (list bool) :=
  [true :: replicate 29 false ++ [true]].

(** The exact value of a finite float (0 for the others), to compare a
    rounded result with the real-number one. *)
Definition float_value (x : float) : Q :=
  match x with
  | S754_finite s m e =>
      let n := if s then Zneg m else Zpos m in
      if 0 <=? e then inject_Z (n * 2 ^ e) else n # Z.to_pos (2 ^ (- e))
  | _ => 0%Q
  end.

Import Matcher.

(** The votes a query casts, in the order the two loops of
    [query_multi_song] cast them: one [(song_name, t_db - t_query)] per
    entry of the bucket of each query fingerprint. *)
Definition ballots (query_fingerprints : list fingerprint) (db : Database)
  : list VoteKey :=
  query_fingerprints ≫= fun fp =>
    let '(f1, f2, dt, t_query) := fp in
    (fun '(song_name, t_db) => (song_name, t_db - t_query))
      <$> default [] (db !! (f1, f2, dt)).

(** Number of votes for [key] among the ballots. *)
Definition count_votes (key : VoteKey) (l : list VoteKey) : Z :=
  Z.of_nat (length (filter (fun k => k = key) l)).

(** The vote table after a sequence of ballots. *)
Definition cast (l : list VoteKey) (votes : Votes) : Votes :=
  fold_left (fun votes key => vote key votes) l votes.

(** [votes.get(key)], with 0 for an absent key. *)
Fixpoint votes_get (key : VoteKey) (votes : Votes) : Z :=
  match votes with
  | [] => 0
  | (k, n) :: rest => if bool_decide (k = key) then n else votes_get key rest
  end.

(** A query whose only hash key is present in the database with an
    empty bucket. *)
Definition empty_bucket_query : list fingerprint := [(1, 2, 3, 0)].
Definition empty_bucket_db : Database := {[ (1, 2, 3) := [] ]}.

(** A query of two fingerprints against a bucket of two songs: both
    [("A", 10)] and [("B", 5)] receive two votes, "A" first. *)
Definition tie_query : list fingerprint := [(1, 2, 3, 0); (1, 2, 3, 0)].
Definition tie_db : Database := {[ (1, 2, 3) := [("A", 10); ("B", 5)] ]}.

Import Service.

(** Front ends for examples: a decoder that yields [sample_mask] for
    every path, one that always fails, and a constant length. *)
Definition sample_audio (_ : string) (_ : Z) : outcome (list (list bool)) :=
  Returns sample_mask.

Definition failing_audio (_ : string) (_ : Z) : outcome (list (list bool)) :=
  Raises (OtherError "cannot decode").

Definition sample_len (_ : list (list bool)) : Z := 220500.

Definition empty_disk : disk := Disk ∅ false.

(** The entries that ingesting [fingerprints] under [song_name] adds to
    the bucket of [key]. *)
Definition entries_for (song_name : string) (fingerprints : list fingerprint)
    (key : Z * Z * Z) : list (string * Z) :=
  (fun fp => (song_name, let '(_, _, _, t1) := fp in t1))
    <$> filter (fun fp => fp_key fp = key) fingerprints.

(** A service that has ingested "Song A" once, the disk it has written,
    and a service with a different [n_fft] on the same path. *)
Definition song_a_run : service * disk * (bool * Z * string) :=
  add_song (list (list bool)) sample_audio sample_len mask_front_end
    (init "fingerprint_db.pkl" empty_disk) empty_disk "a.wav" "Song A".

Definition song_a_service : service := song_a_run.1.1.
Definition song_a_disk : disk := song_a_run.1.2.

Definition other_config_service : service :=
  AudioFingerprintingService "fingerprint_db.pkl" ∅ ∅
    (<["n_fft" := PInt 4096]> DEFAULT_CONFIG).

(** The cell [peaks[f][t]] of the peak array is true. *)
Definition is_peak (peaks : list (list bool)) (t f : Z) : Prop :=
  0 ≤ t ∧ 0 ≤ f ∧
  ∃ row, peaks !! Z.to_nat f = Some row ∧ row !! Z.to_nat t = Some true.

(** The target peak [(t1 + dt, f2)] of a fingerprint. *)
Definition fp_target (fp : fingerprint) : peak :=
  let '(_, f2, dt, t1) := fp in (t1 + dt, f2).

(** The bucket that ingesting the songs of [song_fingerprints], in
    order, builds under [key]. *)
Definition bucket_of (song_fingerprints : list (string * list fingerprint))
    (key : Z * Z * Z) : list (string * Z) :=
  song_fingerprints ≫= fun '(song_name, fingerprints) =>
    entries_for song_name fingerprints key.

(** The anchor time [t1] of a fingerprint, and the fingerprint moved by
    [c] frames. *)
Definition fp_t1 (fp : fingerprint) : Z := let '(_, _, _, t1) := fp in t1.

Definition fp_shift (c : Z) (fp : fingerprint) : fingerprint :=
  let '(f1, f2, dt, t1) := fp in (f1, f2, dt, t1 + c).

(** The fingerprints of a recording as a query sees them when the query
    starts [a] frames into the recording: every anchor time is [a] frames
    earlier. *)
Definition shift_query (a : Z) (fingerprints : list fingerprint)
  : list fingerprint :=
  (fun '(f1, f2, dt, t1) => (f1, f2, dt, t1 - a)) <$> fingerprints.

(** A single-song database read as a multi-song one: every time offset
    is labelled with [song_name]. *)
Definition label_db (song_name : string)
    (db : gmap (Z * Z * Z) (list Z)) : gmap (Z * Z * Z) (list (string * Z)) :=
  (fun times : list Z => (fun t : Z => (song_name, t)) <$> times) <$> db.

(** The offsets a query votes for in [query_single_song], in order, and
    the number of votes for one offset. *)
Definition offset_ballots (query_fingerprints : list fingerprint)
    (db : gmap (Z * Z * Z) (list Z)) : list Z :=
  query_fingerprints ≫= fun fp =>
    let '(f1, f2, dt, t_query) := fp in
    (fun t_db : Z => t_db - t_query) <$> default [] (db !! (f1, f2, dt)).

Definition count_offset (offset : Z) (l : list Z) : Z :=
  Z.of_nat (length (filter (fun o => o = offset) l)).

(** The metadata entry of a song with [n] fingerprints, and the service
    after a successful [add_song]. *)
Definition song_meta (n : nat) (duration : Q) : gmap string num :=
  <["duration_seconds" := Float duration]>
    {["num_fingerprints" := Int (Z.of_nat n)]}.

Definition after_add (s : service) (song_name : string)
    (fingerprints : list fingerprint) (duration : Q) : service :=
  AudioFingerprintingService (db_path s)
    (merge_db (db s) (add_fingerprints song_name fingerprints ∅))
    (<[song_name := song_meta (length fingerprints) duration]> (metadata s))
    (config s).

(** No bucket of the index is empty, and every entry names a song that
    has metadata. *)
Definition index_consistent (s : service) : Prop :=
  ∀ key bucket,
    db s !! key = Some bucket →
    bucket ≠ [] ∧
    ∀ song t, (song, t) ∈ bucket → is_Some (metadata s !! song).

(** Equality of listed values is decidable. *)
#[global] Instance Q_eq_dec : EqDecision Q.
Proof. solve_decision. Defined.

#[global] Instance num_eq_dec : EqDecision num.
Proof. solve_decision. Defined.

#[global] Instance listval_eq_dec : EqDecision listval.
Proof. solve_decision. Defined.

(** * Properties *)

(** ** Result interpretation *)

Lemma confidence_label_cases (score : Z) :
  (score < 200 ∧ confidence_label score = "No match") ∨
  (200 ≤ score < 1000 ∧ confidence_label score = "Low confidence") ∨
  (1000 ≤ score < 3000 ∧ confidence_label score = "Medium confidence") ∨
  (3000 ≤ score ∧ confidence_label score = "High confidence").
Proof.
  unfold confidence_label.
  destruct (Z.ltb_spec score 200); [left; done|].
  destruct (Z.ltb_spec score 1000); [right; left; split; [lia|done]|].
  destruct (Z.ltb_spec score 3000); [right; right; left; split; [lia|done]|].
  right; right; right; done.
Qed.

Lemma no_match_eqb (score : Z) :
  String.eqb (confidence_label score) "No match" = bool_decide (score < 200).
Proof.
  destruct (confidence_label_cases score) as [[H E]|[[H E]|[[H E]|[H E]]]];
    rewrite E; simpl;
    [rewrite bool_decide_eq_true_2 by lia
    |rewrite bool_decide_eq_false_2 by lia..]; reflexivity.
Qed.

Lemma no_match_result_keys (score : Z) :
  no_match_result score !! "matched" = Some (VBool false) ∧
  no_match_result score !! "message" = Some (VStr "No matching song detected") ∧
  no_match_result score !! "raw_score" = Some (VInt score).
Proof. unfold no_match_result. repeat split; by simplify_map_eq. Qed.

Lemma interpret_match_no_match song_name best_offset score hop_length sr :
  score < 200 ∨ song_name = None ∨ best_offset = None →
  interpret_match song_name best_offset score hop_length sr
  = Returns (no_match_result score).
Proof.
  intros H. unfold interpret_match. rewrite no_match_eqb.
  destruct H as [H|[->| ->]].
  - by rewrite bool_decide_eq_true_2.
  - by rewrite orb_true_r.
  - by rewrite orb_true_r.
Qed.






(** The checks of [test_validation.py] on the interpreter. *)
Example confidence_label_tests :
  confidence_label 150 = "No match" ∧
  confidence_label 500 = "Low confidence" ∧
  confidence_label 2000 = "Medium confidence" ∧
  confidence_label 5000 = "High confidence".
Proof. repeat split. Qed.

Example seconds_to_mmss_tests :
  seconds_to_mmss (inject_Z 124) = "2:04" ∧
  seconds_to_mmss (inject_Z 60) = "1:00" ∧
  seconds_to_mmss (inject_Z 0) = "0:00" ∧
  seconds_to_mmss (inject_Z 185) = "3:05".
Proof. repeat split; vm_compute; reflexivity. Qed.

Example interpret_match_test :
  interpret_match (Some "Test Song") (Some 1000) 3500 512 44100
  = Returns (<["matched" := VBool true]>
            (<["song" := VStr "Test Song"]>
            (<["position_in_song" := VStr "0:11"]>
            (<["confidence" := VStr "High confidence"]>
            (<["raw_score" := VInt 3500]> ∅))))).
Proof. vm_compute. reflexivity. Qed.

(** ** Configuration *)

Lemma float_le0_false (x : float) :
  float_le0 x = false ↔ SFltb (S754_zero false) x = true ∨ x = S754_nan.
Proof.
  destruct x as [[]|[]| |[] m e]; vm_compute;
    (split; [intros _; first [by left|by right] | by intros [?|?]])
    || (split; [done | by intros [?|?]]).
Qed.

Lemma float_lt0_false (x : float) :
  float_lt0 x = false ↔ SFleb (S754_zero false) x = true ∨ x = S754_nan.
Proof.
  destruct x as [[]|[]| |[] m e]; vm_compute;
    (split; [intros _; first [by left|by right] | by intros [?|?]])
    || (split; [done | by intros [?|?]]).
Qed.

(** A value passes the test [v <= 0] (or [v < 0]) when it is positive
    (or not negative) and also when it is NaN. *)
Lemma num_le0_false (v : param) :
  num_le0 v = false ↔ num_pos v ∨ num_nan v.
Proof.
  destruct v as [z|x]; unfold num_nan; simpl.
  - rewrite Z.leb_gt. split; [by left|by intros [?|?]].
  - rewrite float_le0_false. split; intros [?|?]; try (by left).
    + right. by f_equal.
    + right. congruence.
Qed.

Lemma num_lt0_false (v : param) :
  num_lt0 v = false ↔ num_nonneg v ∨ num_nan v.
Proof.
  destruct v as [z|x]; unfold num_nan; simpl.
  - rewrite Z.ltb_ge. split; [by left|by intros [?|?]].
  - rewrite float_lt0_false. split; intros [?|?]; try (by left).
    + right. by f_equal.
    + right. congruence.
Qed.

(** The bit test [n & (n - 1) == 0] singles out the powers of two among
    the positive integers. *)
Lemma land_pred_power_of_two (n : Z) :
  0 < n → (Z.land n (n - 1) = 0 ↔ power_of_two n).
Proof.
  intros Hn. split.
  - intros Hland. exists (Z.log2 n).
    pose proof (Z.log2_nonneg n) as Hk. split; [done|].
    destruct (Z.log2_spec n Hn) as [Hlo Hhi].
    destruct (decide (n = 2 ^ Z.log2 n)) as [|Hne]; [done|exfalso].
    assert (Hpred : Z.log2 (n - 1) = Z.log2 n).
    { apply Z.log2_unique; [done|]. rewrite Z.pow_succ_r in Hhi by done.
      rewrite Z.pow_succ_r by done. lia. }
    assert (Hbit : Z.testbit (Z.land n (n - 1)) (Z.log2 n) = true).
    { rewrite Z.land_spec, Z.bit_log2 by done.
      simpl. rewrite <- Hpred. apply Z.bit_log2. lia. }
    rewrite Hland, Z.bits_0 in Hbit. done.
  - intros (k & Hk & ->).
    replace (2 ^ k - 1) with (Z.ones k) by (rewrite Z.ones_equiv; lia).
    rewrite Z.land_ones by done. apply Z_mod_same_full.
Qed.

Lemma check_keys_returns keys (config : gmap string param) :
  check_keys keys config = Returns tt ↔
  ∀ key, key ∈ keys → is_Some (config !! key).
Proof.
  induction keys as [|key keys IH]; simpl.
  - split; [intros _ k Hk; by apply elem_of_nil in Hk|done].
  - destruct (config !! key) eqn:E.
    + rewrite IH. split.
      * intros H k [->|Hk]%elem_of_cons; [by rewrite E|by apply H].
      * intros H k Hk. apply H. by right.
    + split; [done|]. intros H. destruct (H key) as [? ?]; [by left|congruence].
Qed.

Lemma check_keys_raises keys (config : gmap string param) e :
  check_keys keys config = Raises e → ∃ msg, e = ValueError msg.
Proof.
  induction keys as [|key keys IH]; simpl; [done|].
  destruct (config !! key); [done|]. intros [= <-]. eauto.
Qed.

Lemma required_keys_present (config : gmap string param) :
  (∀ key, key ∈ required_keys → is_Some (config !! key)) →
  is_Some (config !! "sr") ∧ is_Some (config !! "n_fft") ∧
  is_Some (config !! "hop_ratio") ∧ is_Some (config !! "num_bands") ∧
  is_Some (config !! "fanout") ∧ is_Some (config !! "dt_min") ∧
  is_Some (config !! "dt_max_seconds").
Proof.
  intros H. repeat split; apply H; unfold required_keys; set_solver.
Qed.

Lemma validate_config_accepts_iff (config : gmap string param) :
  validate_config config = Returns true ↔ checked_constraints config.
Proof.
  unfold validate_config, checked_constraints, getitem, mbind, outcome_bind.
  split.
  - destruct (check_keys required_keys config) as [[]|e] eqn:Hkeys; [|done].
    pose proof (proj1 (check_keys_returns _ _) Hkeys) as Hall. clear Hkeys.
    rename Hall into Hkeys. intros H. split; [done|].
    destruct (required_keys_present _ Hkeys)
      as ([sr Hsr] & [n_fft Hn] & [hop Hhop] & [nb Hnb] & [fo Hfo]
          & [dmin Hdmin] & [dmax Hdmax]).
    rewrite Hsr, Hn, Hhop, Hnb, Hfo, Hdmin, Hdmax in H.
    destruct (num_le0 sr) eqn:E1; [done|].
    destruct (num_le0 n_fft) eqn:E2; [done|].
    destruct n_fft as [n|q]; [|done]. simpl in H.
    destruct (Z.eqb_spec (Z.land n (n - 1)) 0) as [E3|E3]; [|done]. simpl in H.
    destruct (num_le0 hop) eqn:E4; [done|].
    destruct (num_le0 nb) eqn:E5; [done|].
    destruct (num_le0 fo) eqn:E6; [done|].
    destruct (num_lt0 dmin) eqn:E7; [done|].
    destruct (num_le0 dmax) eqn:E8; [done|].
    apply num_le0_false in E1, E4, E5, E6, E8. apply num_lt0_false in E7.
    simpl in E2. apply Z.leb_gt in E2.
    exists sr, n, hop, nb, fo, dmin, dmax.
    repeat split; try done. by apply land_pred_power_of_two.
  - intros (Hkeys & sr & n & hop & nb & fo & dmin & dmax
            & Hsr & Psr & Hn & Pn & Ppow & Hhop & Phop & Hnb & Pnb
            & Hfo & Pfo & Hdmin & Pdmin & Hdmax & Pdmax).
    rewrite (proj2 (check_keys_returns _ _) Hkeys).
    rewrite Hsr, Hn, Hhop, Hnb, Hfo, Hdmin, Hdmax.
    apply num_le0_false in Psr, Phop, Pnb, Pfo, Pdmax.
    apply num_lt0_false in Pdmin.
    rewrite Psr, Phop, Pnb, Pfo, Pdmax, Pdmin. simpl.
    destruct (Z.leb_spec n 0) as [|_]; [lia|]. simpl.
    apply land_pred_power_of_two in Ppow; [|done]. rewrite Ppow. done.
Qed.

Lemma validate_config_never_false (config : gmap string param) :
  validate_config config ≠ Returns false.
Proof.
  unfold validate_config, getitem, mbind, outcome_bind.
  repeat (first [ done | case_match ]).
Qed.

Lemma validate_config_raises (config : gmap string param) e :
  (∀ x, config !! "n_fft" ≠ Some (PFloat x)) →
  validate_config config = Raises e → ∃ msg, e = ValueError msg.
Proof.
  intros Hint. unfold validate_config, getitem, mbind, outcome_bind.
  destruct (check_keys required_keys config) as [[]|e'] eqn:Hkeys.
  - pose proof (proj1 (check_keys_returns _ _) Hkeys) as Hall.
    destruct (required_keys_present _ Hall)
      as ([sr Hsr] & [n_fft Hn] & [hop Hhop] & [nb Hnb] & [fo Hfo]
          & [dmin Hdmin] & [dmax Hdmax]).
    rewrite Hsr, Hn, Hhop, Hnb, Hfo, Hdmin, Hdmax.
    destruct n_fft as [n|q]; [|by destruct (Hint q)].
    simpl. intros H.
    repeat (first [ by eauto | done | case_match; simplify_eq ]).
  - intros [= <-]. by eapply check_keys_raises.
Qed.

Lemma table_implies_checked (config : gmap string param) :
  table_constraints config → checked_constraints config.
Proof.
  intros (sr & n & hop & fnh & tnh & amp & nb & fo & dmin & dmax
          & Hsr & Psr & Hn & Pn & Ppow & Hhop & Phop & _ & Hfnh & _
          & Htnh & _ & Hamp & Hnb & Pnb & _ & Hfo & Pfo & Hdmin & Pdmin
          & Hdmax & Pdmax).
  split.
  - intros key Hkey. unfold required_keys in Hkey.
    repeat (apply elem_of_cons in Hkey as [->|Hkey]; [eauto|]).
    by apply elem_of_nil in Hkey.
  - exists (PInt sr), n, (PInt hop), (PInt nb), (PInt fo), (PInt dmin), dmax.
    repeat split; simpl; try done; left; simpl; first [done|lia].
Qed.

(** A NaN put in the place of a value that is only compared with zero
    leaves an accepted configuration accepted. *)
Lemma checked_constraints_nan (config : gmap string param) (key : string) :
  key ∈ ["sr"; "hop_ratio"; "num_bands"; "fanout"; "dt_min";
         "dt_max_seconds"] →
  checked_constraints config →
  checked_constraints (<[key := PFloat S754_nan]> config).
Proof.
  intros Hkey (Hkeys & sr & n & hop & nb & fo & dmin & dmax
               & Hsr & Psr & Hn & Pn & Ppow & Hhop & Phop & Hnb & Pnb
               & Hfo & Pfo & Hdmin & Pdmin & Hdmax & Pdmax).
  split.
  { intros k Hk. destruct (decide (k = key)) as [->|Hne].
    - rewrite lookup_insert_eq. eauto.
    - rewrite lookup_insert_ne by done. by apply Hkeys. }
  assert (num_nan (PFloat S754_nan)) as Hnan by done.
  repeat (apply elem_of_cons in Hkey as [->|Hkey]);
    [ exists (PFloat S754_nan), n, hop, nb, fo, dmin, dmax
    | exists sr, n, (PFloat S754_nan), nb, fo, dmin, dmax
    | exists sr, n, hop, (PFloat S754_nan), fo, dmin, dmax
    | exists sr, n, hop, nb, (PFloat S754_nan), dmin, dmax
    | exists sr, n, hop, nb, fo, (PFloat S754_nan), dmax
    | exists sr, n, hop, nb, fo, dmin, (PFloat S754_nan)
    | by apply elem_of_nil in Hkey ];
    rewrite ?lookup_insert_eq, ?lookup_insert_ne by done;
    repeat split; first [done | by right].
Qed.

(** C9, as stated, fails: [validate_config] accepts a configuration whose
    [hop_ratio] does not divide [n_fft], whose [num_bands] exceeds
    [n_fft / 2] and whose [freq_neighborhood] is below 1. *)
Lemma validate_config_accepts_off_table :
  validate_config off_table_config = Returns true ∧
  off_table_config !! "n_fft" = Some (PInt 2048) ∧
  off_table_config !! "hop_ratio" = Some (PInt 3) ∧ ¬ (3 | 2048) ∧
  off_table_config !! "num_bands" = Some (PInt 2000) ∧ ¬ 2 * 2000 ≤ 2048 ∧
  off_table_config !! "freq_neighborhood" = Some (PInt 0) ∧ ¬ 1 ≤ 0 ∧
  ¬ table_constraints off_table_config.
Proof.
  assert (¬ (3 | 2048)) as Hdiv by (intros [k Hk]; lia).
  repeat split; try done; try lia.
  intros (sr & n & hop & fnh & tnh & amp & nb & fo & dmin & dmax
          & _ & _ & _ & _ & _ & _ & _ & _ & Hfnh & Pfnh & _).
  vm_compute in Hfnh. injection Hfnh as <-. lia.
Qed.

(** C9, amended. [validate_config] returns [True] exactly when the ten
    required keys are present and no range test rejects: [sr],
    [hop_ratio], [num_bands], [fanout] and [dt_max_seconds] are positive
    or NaN, [dt_min] is not negative or is NaN, and [n_fft] is an int and
    a positive power of two; so a NaN in any of those six entries of an
    accepted configuration is accepted.  It never returns [False]; every
    configuration that meets the whole table is accepted; and a rejected
    configuration whose [n_fft] is not a float raises [ValueError]. *)
Theorem validate_config_checks (config : gmap string param) :
  (validate_config config = Returns true ↔ checked_constraints config) ∧
  (table_constraints config → validate_config config = Returns true) ∧
  validate_config config ≠ Returns false ∧
  ((∀ x, config !! "n_fft" ≠ Some (PFloat x)) →
   ¬ checked_constraints config →
   ∃ msg, validate_config config = Raises (ValueError msg)) ∧
  (validate_config config = Returns true →
   ∀ key,
     key ∈ ["sr"; "hop_ratio"; "num_bands"; "fanout"; "dt_min";
            "dt_max_seconds"] →
     validate_config (<[key := PFloat S754_nan]> config) = Returns true).
Proof.
  split; [apply validate_config_accepts_iff|].
  split.
  { intros H. by apply validate_config_accepts_iff, table_implies_checked. }
  split; [apply validate_config_never_false|].
  split.
  - intros Hint Hnot.
    destruct (validate_config config) as [[]|e] eqn:E.
    + by apply validate_config_accepts_iff in E.
    + by apply validate_config_never_false in E.
    + destruct (validate_config_raises config e Hint E) as [msg ->]. eauto.
  - intros Hok key Hkey.
    apply validate_config_accepts_iff, checked_constraints_nan; [done|].
    by apply validate_config_accepts_iff.
Qed.

Lemma validate_config_checks_witness :
  validate_config nan_config = Returns true ∧
  ∃ msg, validate_config (<["sr" := PInt 0]> DEFAULT_CONFIG)
         = Raises (ValueError msg).
Proof.
  destruct (validate_config_checks DEFAULT_CONFIG) as (_ & _ & _ & _ & Hnan).
  destruct (validate_config_checks (<["sr" := PInt 0]> DEFAULT_CONFIG))
    as (_ & _ & _ & Hrej & _).
  split.
  - apply Hnan; [vm_compute; reflexivity|].
    repeat (apply elem_of_cons; first [by left|right]).
  - apply Hrej.
    + intros x Hx. vm_compute in Hx. discriminate.
    + intros (_ & sr & ? & ? & ? & ? & ? & ? & Hsr & Psr & _).
      vm_compute in Hsr. injection Hsr as <-.
      destruct Psr as [Psr|Psr]; [simpl in Psr; lia|discriminate].
Defined.

(** ** The unbound name in [extract_fingerprints_with_snr_info] *)

Lemma load_name_snr_db_actual (fingerprints : list fingerprint) (snr_db : Q)
    (args : list string) :
  "snr_db_actual" ∉ args →
  load_name
    (<["snr_db" := ObjFloat snr_db]>
     (<["fingerprints" := ObjFingerprints fingerprints]>
     (list_to_map ((fun name => (name, ObjOther)) <$> args))))
    "snr_db_actual"
  = Raises (NameError "snr_db_actual").
Proof.
  intros Hargs. unfold load_name.
  rewrite !lookup_insert_ne by done.
  rewrite (not_elem_of_list_to_map_1 _ "snr_db_actual"); [done|].
  rewrite <- list_fmap_compose. simpl.
  intros Hin. apply Hargs. by rewrite list_fmap_id in Hin.
Qed.

(** C10. Whatever the input, [extract_fingerprints_with_snr_info] never
    returns normally; and a call whose fingerprint extraction and SNR
    estimate both succeed, so that the [return] statement is reached,
    raises [NameError] for the name [snr_db_actual]. *)
Theorem with_snr_info_raises_name_error
    (signal : Type)
    (peak_mask :
       signal → Z → Z → Z → Z → param → Z → outcome (list (list bool)))
    (compute_snr_estimate : signal → Z → Z → outcome Q)
    (y : signal) (sr n_fft hop_ratio freq_neighborhood time_neighborhood : Z)
    (amplitude_threshold : param) (num_bands fanout dt_min : Z)
    (dt_max_seconds : param) :
  (∀ r,
     extract_fingerprints_with_snr_info signal peak_mask compute_snr_estimate
       y sr n_fft hop_ratio freq_neighborhood time_neighborhood
       amplitude_threshold num_bands fanout dt_min dt_max_seconds
     ≠ Returns r) ∧
  (∀ fingerprints snr_db,
     extract_fingerprints signal peak_mask y sr n_fft hop_ratio
       freq_neighborhood time_neighborhood amplitude_threshold num_bands
       fanout dt_min dt_max_seconds = Returns fingerprints →
     compute_snr_estimate y n_fft (n_fft / hop_ratio) = Returns snr_db →
     extract_fingerprints_with_snr_info signal peak_mask compute_snr_estimate
       y sr n_fft hop_ratio freq_neighborhood time_neighborhood
       amplitude_threshold num_bands fanout dt_min dt_max_seconds
     = Raises (NameError "snr_db_actual")).
Proof.
  assert (Hname : ∀ fps snr,
    load_name
      (<["snr_db" := ObjFloat snr]>
       (<["fingerprints" := ObjFingerprints fps]>
       (list_to_map
          ((fun name => (name, ObjOther)) <$>
           ["y"; "sr"; "n_fft"; "hop_ratio"; "freq_neighborhood";
            "time_neighborhood"; "amplitude_threshold"; "num_bands";
            "fanout"; "dt_min"; "dt_max_seconds"]))))
      "snr_db_actual" = Raises (NameError "snr_db_actual")).
  { intros. apply load_name_snr_db_actual. intros Hin.
    repeat (apply elem_of_cons in Hin as [Hin|Hin]; [discriminate|]).
    by apply elem_of_nil in Hin. }
  unfold extract_fingerprints_with_snr_info.
  split.
  - intros r.
    destruct (extract_fingerprints _ _ _ _ _ _ _ _ _ _ _ _ _) as [fps|e];
      [|done].
    unfold mbind, outcome_bind.
    destruct (floordiv n_fft hop_ratio) as [hop|e]; [|done].
    destruct (compute_snr_estimate y n_fft hop) as [snr|e]; [|done].
    rewrite Hname. by destruct (load_name _ "fingerprints").
  - intros fps snr Hfps Hsnr. rewrite Hfps.
    unfold mbind, outcome_bind.
    assert (floordiv n_fft hop_ratio = Returns (n_fft / hop_ratio)) as ->.
    { unfold extract_fingerprints, mbind, outcome_bind in Hfps.
      unfold floordiv in *. by destruct (hop_ratio =? 0). }
    rewrite Hsnr, Hname.
    unfold load_name. rewrite lookup_insert_ne by done.
    by rewrite lookup_insert_eq.
Qed.

Lemma with_snr_info_raises_name_error_witness :
  extract_fingerprints_with_snr_info (list (list bool)) mask_front_end
    constant_snr [[true; false; true]] 44100 2048 4 20 20
    (PInt (-35)) 6 10 2 (PFloat (float_literal (2 # 1)))
  = Raises (NameError "snr_db_actual").
Proof.
  eapply (proj2 (with_snr_info_raises_name_error (list (list bool))
            mask_front_end constant_snr [[true; false; true]] 44100 2048 4
            20 20 (PInt (-35)) 6 10 2 (PFloat (float_literal (2 # 1)))));
    reflexivity.
Defined.

(** ** The peak list *)

Lemma row_where_spec (f t : Z) (row : list bool) :
  StronglySorted cell_lt (row_where f t row) ∧
  Forall (fun c => fst c = f ∧ t ≤ snd c) (row_where f t row).
Proof.
  revert t. induction row as [|b row IH]; intros t; simpl.
  - split; constructor.
  - destruct (IH (t + 1)) as [Hs Hf].
    assert (Forall (fun c => fst c = f ∧ t ≤ snd c) (row_where f (t + 1) row))
      as Hf'.
    { eapply Forall_impl; [exact Hf|]. simpl. intros c [? ?]. split; [done|lia]. }
    destruct b; simpl; [|done].
    split.
    + constructor; [done|].
      eapply Forall_impl; [exact Hf|]. intros c [Hc1 Hc2].
      right. simpl. split; [done|lia].
    + constructor; [simpl; split; [done|lia]|done].
Qed.

Lemma StronglySorted_app {A} (R : A → A → Prop) (l1 l2 : list A) :
  StronglySorted R l1 → StronglySorted R l2 →
  (∀ x y, x ∈ l1 → y ∈ l2 → R x y) →
  StronglySorted R (l1 ++ l2).
Proof.
  intros H1 H2 H12. induction H1 as [|x l1 Hs IH Hx]; simpl; [done|].
  constructor.
  - apply IH. intros a b Ha Hb. apply H12; [by right|done].
  - apply Forall_app. split; [done|].
    apply Forall_forall. intros y Hy. apply H12; [by left|done].
Qed.

Lemma where_from_spec (f : Z) (rows : list (list bool)) :
  StronglySorted cell_lt (where_from f rows) ∧
  Forall (fun c => f ≤ fst c) (where_from f rows).
Proof.
  revert f. induction rows as [|row rows IH]; intros f; simpl.
  - split; constructor.
  - destruct (IH (f + 1)) as [Hs Hf].
    destruct (row_where_spec f 0 row) as [Hrs Hrf].
    rewrite Forall_forall in Hf, Hrf.
    split.
    + apply StronglySorted_app; [done..|].
      intros x y Hx Hy. left.
      destruct (Hrf x Hx) as [-> _]. specialize (Hf y Hy). lia.
    + apply Forall_app. split; apply Forall_forall; intros c Hc.
      * destruct (Hrf c Hc) as [-> _]. lia.
      * specialize (Hf c Hc). lia.
Qed.

(** [zip(time_idx, freq_idx)] swaps the coordinates of every cell. *)
Lemma zip_np_where (peaks : list (list bool)) :
  combine (snd (np_where peaks)) (fst (np_where peaks))
  = prod_swap <$> where_from 0 peaks.
Proof.
  unfold np_where. simpl.
  induction (where_from 0 peaks) as [|[f t] l IH]; simpl; [done|].
  by rewrite IH.
Qed.

Lemma zipped_sorted (peaks : list (list bool)) :
  StronglySorted zipped_lt (prod_swap <$> where_from 0 peaks).
Proof.
  destruct (where_from_spec 0 peaks) as [Hs _].
  induction Hs as [|c l Hs IH Hc]; simpl; constructor; [done|].
  apply Forall_fmap. eapply Forall_impl; [exact Hc|].
  intros [f t]. destruct c as [f0 t0]. done.
Qed.

Lemma insert_by_time_Forall (P : peak → Prop) (p : peak) (l : list peak) :
  Forall P (insert_by_time p l) ↔ P p ∧ Forall P l.
Proof.
  induction l as [|q l IH]; simpl.
  - rewrite Forall_singleton. split; [intros; split; [done|constructor]|tauto].
  - destruct (fst p <=? fst q).
    + by rewrite Forall_cons.
    + rewrite !Forall_cons, IH. tauto.
Qed.

Lemma sort_by_time_Forall (P : peak → Prop) (l : list peak) :
  Forall P (sort_by_time l) ↔ Forall P l.
Proof.
  induction l as [|p l IH]; simpl; [done|].
  by rewrite insert_by_time_Forall, Forall_cons, IH.
Qed.

Lemma insert_by_time_sorted (p : peak) (l : list peak) :
  StronglySorted peak_lt l → Forall (zipped_lt p) l →
  StronglySorted peak_lt (insert_by_time p l).
Proof.
  intros Hs. induction Hs as [|q l Hs IH Hq]; intros Hp; simpl.
  - repeat constructor.
  - apply Forall_cons in Hp as [Hpq Hpl].
    destruct (Z.leb_spec (fst p) (fst q)) as [Hle|Hgt].
    + constructor; [by constructor|].
      assert (peak_lt p q) as Hlt.
      { unfold peak_lt, zipped_lt in *. lia. }
      constructor; [done|].
      rewrite Forall_forall in Hq, Hpl. apply Forall_forall. intros y Hy.
      specialize (Hq y Hy). specialize (Hpl y Hy).
      unfold peak_lt, zipped_lt in *. lia.
    + constructor; [by apply IH|].
      apply insert_by_time_Forall. split; [|done].
      left. lia.
Qed.

Lemma sort_by_time_sorted (l : list peak) :
  StronglySorted zipped_lt l → StronglySorted peak_lt (sort_by_time l).
Proof.
  intros Hs. induction Hs as [|p l Hs IH Hp]; simpl; [constructor|].
  apply insert_by_time_sorted; [done|]. by apply sort_by_time_Forall.
Qed.

Lemma sort_by_time_Permutation (l : list peak) : sort_by_time l ≡ₚ l.
Proof.
  induction l as [|p l IH]; simpl; [done|].
  rewrite <- IH at 2. generalize (sort_by_time l) as sorted. clear.
  intros sorted. induction sorted as [|q rest IH]; simpl; [done|].
  destruct (fst p <=? fst q); [done|].
  rewrite IH. apply Permutation_swap.
Qed.

Lemma peak_list_strictly_sorted (peaks : list (list bool)) :
  StronglySorted peak_lt (peak_list_of peaks).
Proof.
  unfold peak_list_of.
  pose proof (zip_np_where peaks) as Hzip.
  destruct (np_where peaks) as [freq_idx time_idx]. simpl in Hzip.
  rewrite Hzip. apply sort_by_time_sorted, zipped_sorted.
Qed.


Lemma peak_lt_NoDup (l : list peak) : StronglySorted peak_lt l → NoDup l.
Proof.
  intros Hs. induction Hs as [|p l Hs IH Hp]; constructor; [|done].
  intros Hin. rewrite Forall_forall in Hp. specialize (Hp p Hin).
  unfold peak_lt in Hp. lia.
Qed.



(** ** Pairing anchors with targets *)

Section PairingProperties.
Variables (fanout dt_min dt_max : Z).

Lemma scan_targets_spec (t1 f1 count : Z) (targets : list peak)
    (fp : fingerprint) :
  fp ∈ scan_targets fanout dt_min dt_max t1 f1 count targets →
  dt_min ≤ fp_dt fp ≤ dt_max ∧ fp_anchor fp = (t1, f1).
Proof.
  revert count. induction targets as [|[t2 f2] rest IH]; intros count; simpl.
  - intros H. by apply elem_of_nil in H.
  - destruct (Z.ltb_spec (t2 - t1) dt_min) as [_|Hmin]; [apply IH|].
    destruct (Z.ltb_spec dt_max (t2 - t1)) as [_|Hmax].
    { intros Hin. by apply elem_of_nil in Hin. }
    intros [->|Hin]%elem_of_cons.
    + simpl. split; [lia|done].
    + destruct (fanout <=? count + 1).
      * by apply elem_of_nil in Hin.
      * by apply IH in Hin.
Qed.

Lemma scan_targets_length (t1 f1 count : Z) (targets : list peak) :
  count < fanout →
  Z.of_nat (length (scan_targets fanout dt_min dt_max t1 f1 count targets))
  ≤ fanout - count.
Proof.
  revert count. induction targets as [|[t2 f2] rest IH]; intros count Hc; simpl.
  - lia.
  - destruct (t2 - t1 <? dt_min); [by apply IH|].
    destruct (dt_max <? t2 - t1); [simpl; lia|].
    simpl length. destruct (Z.leb_spec fanout (count + 1)) as [|Hlt].
    + simpl. lia.
    + specialize (IH (count + 1) Hlt). lia.
Qed.

Lemma pair_peaks_dt (peak_list : list peak) (fp : fingerprint) :
  fp ∈ pair_peaks fanout dt_min dt_max peak_list →
  dt_min ≤ fp_dt fp ≤ dt_max.
Proof.
  induction peak_list as [|[t1 f1] rest IH]; simpl.
  - intros H. by apply elem_of_nil in H.
  - intros [H|H]%elem_of_app; [|by apply IH].
    by apply scan_targets_spec in H as [Hdt _].
Qed.

Lemma pair_peaks_anchor (peak_list : list peak) (fp : fingerprint) :
  fp ∈ pair_peaks fanout dt_min dt_max peak_list →
  fp_anchor fp ∈ peak_list.
Proof.
  induction peak_list as [|[t1 f1] rest IH]; simpl.
  - intros H. by apply elem_of_nil in H.
  - intros [H|H]%elem_of_app.
    + apply scan_targets_spec in H as [_ ->]. by left.
    + right. by apply IH.
Qed.

Lemma filter_none {A} (P : A → Prop) `{!∀ x, Decision (P x)} (l : list A) :
  (∀ x, x ∈ l → ¬ P x) → filter P l = [].
Proof.
  induction l as [|x l IH]; intros Hl; [done|].
  rewrite filter_cons_False by (apply Hl; by left).
  apply IH. intros y Hy. apply Hl. by right.
Qed.

Lemma pair_peaks_fanout (peak_list : list peak) (anchor : peak) :
  1 ≤ fanout → NoDup peak_list →
  Z.of_nat
    (length (filter (fun fp => fp_anchor fp = anchor)
               (pair_peaks fanout dt_min dt_max peak_list)))
  ≤ fanout.
Proof.
  intros Hfan Hnd. induction Hnd as [|[t1 f1] rest Hnotin Hnd IH]; simpl.
  - lia.
  - rewrite filter_app, length_app.
    destruct (decide ((t1, f1) = anchor)) as [<-|Hne].
    + rewrite (filter_none _ (pair_peaks _ _ _ rest)).
      * pose proof (length_filter (fun fp => fp_anchor fp = (t1, f1))
                      (scan_targets fanout dt_min dt_max t1 f1 0 rest)).
        pose proof (scan_targets_length t1 f1 0 rest).
        simpl. lia.
      * intros fp Hfp Heq. apply pair_peaks_anchor in Hfp.
        rewrite Heq in Hfp. done.
    + rewrite (filter_none _ (scan_targets _ _ _ _ _ _ rest)).
      * simpl. lia.
      * intros fp Hfp Heq. apply scan_targets_spec in Hfp as [_ Hfp].
        congruence.
Qed.

End PairingProperties.

(** ** Keys of the database *)

(** The multi-song check of [test_validation.py]. *)
Example build_song_database_test :
  let '(db, metadata) :=
    build_song_database
      [("Song A", [(100, 200, 50, 10); (150, 250, 60, 20)]);
       ("Song B", [(100, 200, 50, 15); (200, 300, 70, 25)])] in
  db !! (100, 200, 50) = Some [("Song A", 10); ("Song B", 15)] ∧
  metadata !! "Song A" = Some {["num_fingerprints" := Int 2]} ∧
  metadata !! "Song B" = Some {["num_fingerprints" := Int 2]}.
Proof. vm_compute. repeat split. Qed.

Lemma db_append_lookup (db : Database) (k k' : Z * Z * Z)
    (e : string * Z) (bucket : list (string * Z)) :
  db_append db k e !! k' = Some bucket →
  k' = k ∨ db !! k' = Some bucket.
Proof.
  unfold db_append. intros H.
  destruct (decide (k = k')) as [->|Hne]; [by left|].
  right. by rewrite lookup_insert_ne in H.
Qed.

Lemma add_fingerprints_lookup (song_name : string)
    (fingerprints : list fingerprint) (db : Database) (k : Z * Z * Z)
    (bucket : list (string * Z)) :
  add_fingerprints song_name fingerprints db !! k = Some bucket →
  is_Some (db !! k) ∨ ∃ fp, fp ∈ fingerprints ∧ fp_key fp = k.
Proof.
  unfold add_fingerprints. revert db bucket.
  induction fingerprints as [|[[[f1 f2] dt] t1] fps IH]; intros db bucket;
    simpl.
  - intros H. left. eauto.
  - intros H. apply IH in H as [[b Hb]|(fp & Hfp & Hk)].
    + apply db_append_lookup in Hb as [->|Hb].
      * right. exists (f1, f2, dt, t1). split; [by left|done].
      * left. eauto.
    + right. exists fp. split; [by right|done].
Qed.

Lemma build_song_database_lookup
    (song_fingerprints : list (string * list fingerprint))
    (k : Z * Z * Z) (bucket : list (string * Z)) :
  (build_song_database song_fingerprints).1 !! k = Some bucket →
  ∃ song_name fingerprints fp,
    (song_name, fingerprints) ∈ song_fingerprints ∧
    fp ∈ fingerprints ∧ fp_key fp = k.
Proof.
  unfold build_song_database.
  assert (∀ (acc : Database * Metadata) bucket,
    (fold_left
       (fun '(db, metadata) '(song_name, fingerprints) =>
          (add_fingerprints song_name fingerprints db,
           <[song_name :=
               {["num_fingerprints" := Int (Z.of_nat (length fingerprints))]}]>
             metadata))
       song_fingerprints acc).1 !! k = Some bucket →
    is_Some (acc.1 !! k) ∨
    ∃ song_name fingerprints fp,
      (song_name, fingerprints) ∈ song_fingerprints ∧
      fp ∈ fingerprints ∧ fp_key fp = k) as Hgen.
  { induction song_fingerprints as [|[name fps] rest IH];
      intros [db md] b; simpl.
    - intros H. left. eauto.
    - intros H. apply IH in H as [[b' Hb']|(n & l & fp & Hin & Hfp & Hk)].
      + simpl in Hb'. apply add_fingerprints_lookup in Hb' as [Hs|(fp & Hfp & Hk)].
        * by left.
        * right. exists name, fps, fp. split; [by left|done].
      + right. exists n, l, fp. split; [by right|done]. }
  intros H. apply Hgen in H as [[b Hb]|H]; [|done].
  simpl in Hb. by rewrite lookup_empty in Hb.
Qed.

(** The bound at the default configuration, where the rounded value
    and the exact one agree: [int(2.0 * 44100 / 512) = 172]. *)
Example dt_max_of_default :
  dt_max_of (PFloat (float_literal (2 # 1))) 44100 (2048 / 4) = Returns 172 ∧
  Qfloor (Qdiv (Qmult (float_value (float_literal (2 # 1)))
                      (inject_Z 44100))
               (inject_Z (2048 / 4))) = 172.
Proof. split; vm_compute; reflexivity. Qed.

(** C2, as stated, fails.  At [dt_max_seconds = 0.96], [sr = 16000] and
    a hop length of 512 the product rounds to 15360.0 and the quotient
    is 30.0, so a fingerprint with [dt = 30] is returned although the
    floor of the exact value is 29.  And at [sr = -1] with [dt_min = 0]
    a fingerprint with [dt = 0] is returned although the floor is -1:
    [int()] truncates toward zero. *)
Lemma fingerprint_dt_exceeds_floor :
  let seconds := float_literal (96 # 100) in
  let floor_of (seconds : float) (sr hop_length : Z) :=
    Qfloor (Qdiv (Qmult (float_value seconds) (inject_Z sr))
                 (inject_Z hop_length)) in
  (seconds = S754_finite false 8646911284551352 (-53) ∧
   (0 < float_value seconds)%Q ∧
   extract_fingerprints (list (list bool)) mask_front_end gap_mask
     16000 2048 4 20 20 (PInt (-35)) 6 10 2 (PFloat seconds)
   = Returns [(0, 0, 30, 0)] ∧
   floor_of seconds 16000 (2048 / 4) = 29 ∧
   ¬ fp_dt (0, 0, 30, 0) ≤ floor_of seconds 16000 (2048 / 4)) ∧
  ((0 < float_value (float_literal (2 # 1)))%Q ∧
   extract_fingerprints (list (list bool)) mask_front_end sample_mask
     (-1) 2048 4 20 20 (PInt (-35)) 6 10 0
     (PFloat (float_literal (2 # 1)))
   = Returns [(0, 2, 0, 0)] ∧
   floor_of (float_literal (2 # 1)) (-1) (2048 / 4) = -1 ∧
   ¬ fp_dt (0, 2, 0, 0) ≤ floor_of (float_literal (2 # 1)) (-1) (2048 / 4)).
Proof. repeat split; try (vm_compute; reflexivity); vm_compute; by intros H. Qed.

Lemma extract_fingerprints_dt_max
    (signal : Type)
    (peak_mask :
       signal → Z → Z → Z → Z → param → Z → outcome (list (list bool)))
    (y : signal) (sr n_fft hop_ratio freq_neighborhood time_neighborhood : Z)
    (amplitude_threshold : param) (num_bands fanout dt_min : Z)
    (dt_max_seconds : param) (fingerprints : list fingerprint) :
  extract_fingerprints signal peak_mask y sr n_fft hop_ratio
    freq_neighborhood time_neighborhood amplitude_threshold num_bands
    fanout dt_min dt_max_seconds
  = Returns fingerprints →
  ∃ peaks dt_max,
    hop_ratio ≠ 0 ∧
    peak_mask y n_fft (n_fft / hop_ratio) freq_neighborhood
      time_neighborhood amplitude_threshold num_bands = Returns peaks ∧
    dt_max_of dt_max_seconds sr (n_fft / hop_ratio) = Returns dt_max ∧
    fingerprints = pair_peaks fanout dt_min dt_max (peak_list_of peaks).
Proof.
  unfold extract_fingerprints, mbind, outcome_bind, floordiv.
  destruct (Z.eqb_spec hop_ratio 0) as [|Hhop]; [done|].
  destruct (peak_mask _ _ _ _ _ _ _) as [peaks|]; [|done].
  destruct (dt_max_of _ _ _) as [dt_max|]; [|done].
  intros [= <-]. by exists peaks, dt_max.
Qed.

(** C2, amended. Every fingerprint [(f1, f2, dt, t1)] returned by
    [extract_fingerprints] has [dt_min <= dt <= DT_MAX], where [DT_MAX]
    is the value of [int(dt_max_seconds * sr / hop_length)] as the code
    computes it, in binary64 arithmetic with the result truncated toward
    zero, and [hop_length = n_fft // hop_ratio]; and every hash key of
    the database that [build_song_database] builds from fingerprint
    lists so extracted has its [dt] within the same bounds. *)
Theorem fingerprint_dt_bounds
    (signal : Type)
    (peak_mask :
       signal → Z → Z → Z → Z → param → Z → outcome (list (list bool)))
    (sr n_fft hop_ratio freq_neighborhood time_neighborhood : Z)
    (amplitude_threshold : param) (num_bands fanout dt_min : Z)
    (dt_max_seconds : param) :
  let extract y :=
    extract_fingerprints signal peak_mask y sr n_fft hop_ratio
      freq_neighborhood time_neighborhood amplitude_threshold num_bands
      fanout dt_min dt_max_seconds in
  (∀ y fingerprints,
     extract y = Returns fingerprints →
     ∃ DT_MAX,
       dt_max_of dt_max_seconds sr (n_fft / hop_ratio) = Returns DT_MAX ∧
       ∀ fp, fp ∈ fingerprints → dt_min ≤ fp_dt fp ≤ DT_MAX) ∧
  (∀ song_fingerprints,
     (∀ song_name fingerprints,
        (song_name, fingerprints) ∈ song_fingerprints →
        ∃ y, extract y = Returns fingerprints) →
     ∀ f1 f2 dt bucket,
       (build_song_database song_fingerprints).1 !! (f1, f2, dt)
       = Some bucket →
       ∃ DT_MAX,
         dt_max_of dt_max_seconds sr (n_fft / hop_ratio) = Returns DT_MAX ∧
         dt_min ≤ dt ≤ DT_MAX).
Proof.
  intros extract.
  assert (Hfp : ∀ y fingerprints,
    extract y = Returns fingerprints →
    ∃ DT_MAX,
      dt_max_of dt_max_seconds sr (n_fft / hop_ratio) = Returns DT_MAX ∧
      ∀ fp, fp ∈ fingerprints → dt_min ≤ fp_dt fp ≤ DT_MAX).
  { intros y fps Hret.
    apply extract_fingerprints_dt_max in Hret
      as (peaks & dt_max & _ & _ & Hmax & ->).
    exists dt_max. split; [done|]. intros fp Hin.
    by apply pair_peaks_dt in Hin. }
  split; [exact Hfp|].
  intros sfs Hall f1 f2 dt bucket Hlook.
  apply build_song_database_lookup in Hlook
    as (name & fps & [[[g1 g2] d] t1] & Hin & Hfpin & Hk).
  simpl in Hk. injection Hk as -> -> ->.
  destruct (Hall name fps Hin) as [y Hy].
  destruct (Hfp y fps Hy) as (DT_MAX & Hmax & Hbound).
  exists DT_MAX. split; [done|].
  exact (Hbound (f1, f2, dt, t1) Hfpin).
Qed.

Lemma fingerprint_dt_bounds_witness :
  extract_fingerprints (list (list bool)) mask_front_end gap_mask
    16000 2048 4 20 20 (PInt (-35)) 6 10 2
    (PFloat (float_literal (96 # 100)))
  = Returns [(0, 0, 30, 0)] ∧
  ∃ DT_MAX,
    dt_max_of (PFloat (float_literal (96 # 100))) 16000 (2048 / 4)
    = Returns DT_MAX ∧
    2 ≤ fp_dt (0, 0, 30, 0) ≤ DT_MAX.
Proof.
  split; [vm_compute; reflexivity|].
  destruct (proj1 (fingerprint_dt_bounds (list (list bool)) mask_front_end
                     16000 2048 4 20 20 (PInt (-35)) 6 10 2
                     (PFloat (float_literal (96 # 100))))
              gap_mask [(0, 0, 30, 0)])
    as (DT_MAX & Hmax & Hbound).
  - vm_compute. reflexivity.
  - exists DT_MAX. split; [exact Hmax|].
    apply Hbound. apply elem_of_cons. by left.
Defined.

(** C3. With [fanout >= 1], each anchor peak contributes at most
    [fanout] fingerprints to the output of [extract_fingerprints]: for
    every position [(t1, f1)], the number of returned tuples whose anchor
    is that peak is at most [fanout]. *)
Theorem anchor_fanout_bound
    (signal : Type)
    (peak_mask :
       signal → Z → Z → Z → Z → param → Z → outcome (list (list bool)))
    (y : signal)
    (sr n_fft hop_ratio freq_neighborhood time_neighborhood : Z)
    (amplitude_threshold : param) (num_bands fanout dt_min : Z)
    (dt_max_seconds : param) (fingerprints : list fingerprint) (t1 f1 : Z)
    (Hfanout : 1 ≤ fanout)
    (Hret : extract_fingerprints signal peak_mask y sr n_fft hop_ratio
              freq_neighborhood time_neighborhood amplitude_threshold
              num_bands fanout dt_min dt_max_seconds
            = Returns fingerprints) :
  Z.of_nat
    (length (filter (fun fp => fp_anchor fp = (t1, f1)) fingerprints))
  ≤ fanout.
Proof.
  unfold extract_fingerprints, mbind, outcome_bind in Hret.
  destruct (floordiv n_fft hop_ratio) as [hop_length|]; [|done].
  destruct (peak_mask _ _ _ _ _ _ _) as [peaks|]; [|done].
  destruct (dt_max_of _ _ hop_length) as [dt_max|]; [|done].
  injection Hret as <-.
  apply pair_peaks_fanout; [done|].
  apply peak_lt_NoDup, peak_list_strictly_sorted.
Qed.

Lemma anchor_fanout_bound_witness :
  Z.of_nat
    (length
       (filter (fun fp => fp_anchor fp = (0, 0))
          [(0, 1, 1, 0); (2, 1, 1, 0); (1, 2, 1, 1); (2, 0, 1, 2);
           (0, 1, 1, 3)]))
  ≤ 1.
Proof.
  apply (anchor_fanout_bound (list (list bool)) mask_front_end sample_mask
           4 8 2 20 20 (PInt (-35)) 6 1 1 (PFloat (float_literal (2 # 1)))).
  - lia.
  - reflexivity.
Defined.

(** ** Offset voting *)

Lemma tally_cast (query_fingerprints : list fingerprint) (db : Database) :
  tally query_fingerprints db = cast (ballots query_fingerprints db) [].
Proof.
  unfold tally, ballots. generalize ([] : Votes) as votes.
  induction query_fingerprints as [|[[[f1 f2] dt] tq] Q IH]; intros votes;
    [done|].
  simpl. unfold cast in *. rewrite fold_left_app, IH. f_equal.
  destruct (db !! (f1, f2, dt)) as [bucket|]; simpl; [|done].
  unfold vote_bucket. revert votes.
  induction bucket as [|[song t_db] bucket IHb]; intros votes; simpl; [done|].
  by rewrite IHb.
Qed.

Lemma cast_snoc (l : list VoteKey) (x : VoteKey) (votes : Votes) :
  cast (l ++ [x]) votes = vote x (cast l votes).
Proof. unfold cast. by rewrite fold_left_app. Qed.

Lemma vote_keys (x : VoteKey) (votes : Votes) :
  (vote x votes).*1
  = if decide (x ∈ votes.*1) then votes.*1 else votes.*1 ++ [x].
Proof.
  induction votes as [|[k n] rest IH].
  - destruct (decide (x ∈ ([] : Votes).*1)) as [Hin|_]; [|done].
    by apply elem_of_nil in Hin.
  - cbn [vote]. destruct (decide (k = x)) as [->|Hne].
    + rewrite bool_decide_eq_true_2 by done.
      destruct (decide (x ∈ ((x, n) :: rest).*1)) as [_|Hnin]; [done|].
      exfalso. apply Hnin. by left.
    + rewrite bool_decide_eq_false_2 by done.
      change (((k, n) :: vote x rest).*1) with (k :: (vote x rest).*1).
      rewrite IH.
      change (((k, n) :: rest).*1) with (k :: rest.*1).
      destruct (decide (x ∈ rest.*1)) as [Hin|Hnin];
        destruct (decide (x ∈ k :: rest.*1)) as [Hin'|Hnin']; try done.
      * exfalso. apply Hnin'. by right.
      * apply elem_of_cons in Hin' as [?|?]; congruence.
Qed.

Lemma votes_get_vote (key x : VoteKey) (votes : Votes) :
  votes_get key (vote x votes)
  = votes_get key votes + (if decide (x = key) then 1 else 0).
Proof.
  induction votes as [|[k n] rest IH]; simpl.
  - destruct (decide (x = key)) as [->|Hne].
    + by rewrite bool_decide_eq_true_2.
    + by rewrite bool_decide_eq_false_2.
  - destruct (decide (k = x)) as [->|Hkx].
    + rewrite bool_decide_eq_true_2 by done. simpl.
      destruct (decide (x = key)) as [->|Hne].
      * by rewrite bool_decide_eq_true_2.
      * rewrite bool_decide_eq_false_2 by done. lia.
    + rewrite (bool_decide_eq_false_2 (k = x)) by done. simpl.
      destruct (bool_decide (k = key)) eqn:E.
      * apply bool_decide_eq_true_1 in E. subst k.
        rewrite decide_False by congruence. lia.
      * done.
Qed.

Lemma count_votes_snoc (key x : VoteKey) (l : list VoteKey) :
  count_votes key (l ++ [x])
  = count_votes key l + (if decide (x = key) then 1 else 0).
Proof.
  unfold count_votes. rewrite filter_app, length_app.
  destruct (decide (x = key)) as [->|Hne].
  - rewrite filter_cons_True by done. simpl. lia.
  - rewrite filter_cons_False by done. simpl. lia.
Qed.

Lemma count_votes_nonneg (key : VoteKey) (l : list VoteKey) :
  0 ≤ count_votes key l.
Proof. unfold count_votes. lia. Qed.

Lemma count_votes_not_elem (key : VoteKey) (l : list VoteKey) :
  key ∉ l → count_votes key l = 0.
Proof.
  intros H. unfold count_votes. rewrite filter_none; [done|].
  intros k Hk ->. done.
Qed.

Lemma votes_get_cast (key : VoteKey) (l : list VoteKey) :
  votes_get key (cast l []) = count_votes key l.
Proof.
  induction l as [|x l IH] using rev_ind; [done|].
  by rewrite cast_snoc, votes_get_vote, count_votes_snoc, IH.
Qed.

Lemma cast_keys_elem (key : VoteKey) (l : list VoteKey) :
  key ∈ (cast l []).*1 ↔ key ∈ l.
Proof.
  induction l as [|x l IH] using rev_ind.
  - simpl. split; intros H; by apply elem_of_nil in H.
  - rewrite cast_snoc, vote_keys, elem_of_app, list_elem_of_singleton.
    destruct (decide (x ∈ (cast l []).*1)) as [Hin|Hnin].
    + rewrite IH. split; [by left|]. intros [Hk|Hk]; [done|].
      subst key. by apply IH.
    + rewrite elem_of_app, list_elem_of_singleton, IH. done.
Qed.

Lemma cast_keys_NoDup (l : list VoteKey) : NoDup ((cast l []).*1).
Proof.
  induction l as [|x l IH] using rev_ind; [constructor|].
  rewrite cast_snoc, vote_keys.
  destruct (decide (x ∈ (cast l []).*1)) as [Hin|Hnin]; [done|].
  apply NoDup_app. split; [done|]. split.
  - intros k Hk ->%list_elem_of_singleton. done.
  - apply NoDup_singleton.
Qed.

(** Keys enter the table in the order of their first vote. *)
Lemma cast_keys_order (l : list VoteKey) (i : nat) (key : VoteKey) :
  (cast l []).*1 !! i = Some key →
  ∃ pre post,
    l = pre ++ key :: post ∧ (key ∉ pre) ∧
    ∀ k, k ∈ pre → ∃ j, (j < i)%nat ∧ (cast l []).*1 !! j = Some k.
Proof.
  revert i key. induction l as [|x l IH] using rev_ind; intros i key; [done|].
  rewrite cast_snoc, vote_keys.
  destruct (decide (x ∈ (cast l []).*1)) as [Hin|Hnin].
  - intros Hi. destruct (IH i key Hi) as (pre & post & -> & Hpre & Hbefore).
    exists pre, (post ++ [x]). split; [by rewrite <- app_assoc|done].
  - intros Hi. destruct (decide (i < length (cast l []).*1)%nat) as [Hlt|Hge].
    + rewrite lookup_app_l in Hi by done.
      destruct (IH i key Hi) as (pre & post & -> & Hpre & Hbefore).
      exists pre, (post ++ [x]). split; [by rewrite <- app_assoc|].
      split; [done|]. intros k Hk.
      destruct (Hbefore k Hk) as (j & Hj & Hlook).
      exists j. split; [done|]. rewrite lookup_app_l by lia. done.
    + rewrite lookup_app_r in Hi by lia.
      destruct (i - length (cast l []).*1)%nat as [|?] eqn:E; [|done].
      simpl in Hi. injection Hi as <-.
      exists l, []. split; [done|]. split; [by rewrite <- cast_keys_elem|].
      intros k Hk. apply cast_keys_elem, list_elem_of_lookup in Hk as [j Hj].
      exists j. split.
      * apply lookup_lt_Some in Hj. lia.
      * rewrite lookup_app_l; [done|]. by apply lookup_lt_Some in Hj.
Qed.

Lemma votes_get_NoDup (votes : Votes) (i : nat) (key : VoteKey) (n : Z) :
  NoDup votes.*1 → votes !! i = Some (key, n) → votes_get key votes = n.
Proof.
  revert i. induction votes as [|[k m] rest IH]; intros i Hnd Hi; [done|].
  simpl in *. apply NoDup_cons in Hnd as [Hk Hnd].
  destruct i as [|i]; simpl in Hi.
  - injection Hi as -> ->. by rewrite bool_decide_eq_true_2.
  - rewrite bool_decide_eq_false_2; [by apply (IH i)|].
    intros ->. apply Hk. apply list_elem_of_fmap.
    exists (key, n). split; [done|]. apply list_elem_of_lookup. eauto.
Qed.

(** [max] keeps the first entry that no later entry exceeds. *)
Lemma max_from_spec (best : VoteKey) (best_n : Z) (rest : Votes)
    (w : VoteKey) (n : Z) :
  max_from best best_n rest = (w, n) →
  ∃ i, ((best, best_n) :: rest) !! i = Some (w, n) ∧
       (∀ j e, (j < i)%nat → ((best, best_n) :: rest) !! j = Some e →
               e.2 < n) ∧
       (∀ e, e ∈ (best, best_n) :: rest → e.2 ≤ n).
Proof.
  revert best best_n. induction rest as [|[k m] rest IH]; intros best best_n;
    simpl.
  - intros [= <- <-]. exists 0%nat. split; [done|]. split.
    + intros j e Hj. lia.
    + intros e ->%list_elem_of_singleton. simpl. lia.
  - destruct (Z.ltb_spec best_n m) as [Hlt|Hge]; intros Hmax.
    + destruct (IH k m Hmax) as (i & Hi & Hbefore & Hall).
      exists (S i). split; [done|].
      assert (m ≤ n) as Hmn by (apply (Hall (k, m)); by left).
      split.
      * intros [|j] e Hj He; simpl in He.
        -- injection He as <-. simpl. lia.
        -- apply (Hbefore j e); [lia|done].
      * intros e [->|He]%elem_of_cons; [simpl; lia|by apply Hall].
    + destruct (IH best best_n Hmax) as (i & Hi & Hbefore & Hall).
      destruct i as [|i].
      * simpl in Hi. injection Hi as <- <-.
        exists 0%nat. split; [done|]. split; [intros j e Hj; lia|].
        intros e [->|[->|He]%elem_of_cons]%elem_of_cons; simpl; try lia.
        apply Hall. by right.
      * exists (S (S i)). split; [done|]. split.
        -- intros [|[|j]] e Hj He; simpl in He.
           ++ injection He as <-. apply (Hbefore 0%nat (best, best_n)); [lia|done].
           ++ injection He as <-. simpl.
              assert (best_n < n)
                by (apply (Hbefore 0%nat (best, best_n)); [lia|done]).
              lia.
           ++ apply (Hbefore (S j) e); [lia|done].
        -- intros e [->|[->|He]%elem_of_cons]%elem_of_cons.
           ++ apply Hall. by left.
           ++ simpl. assert (best_n ≤ n) by (apply (Hall (best, best_n)); by left).
              lia.
           ++ apply Hall. by right.
Qed.

Lemma ballots_nil_iff (query_fingerprints : list fingerprint) (db : Database) :
  ballots query_fingerprints db = [] ↔
  ∀ fp, fp ∈ query_fingerprints →
        db !! fp_key fp = None ∨ db !! fp_key fp = Some [].
Proof.
  unfold ballots.
  induction query_fingerprints as [|[[[f1 f2] dt] tq] Q IH]; simpl.
  - split; [|done]. intros _ fp Hfp. by apply elem_of_nil in Hfp.
  - split.
    + intros [Hb HQ]%app_nil fp [->|Hfp]%elem_of_cons.
      * simpl. destruct (db !! (f1, f2, dt)) as [[|e bucket]|]; auto.
        done.
      * by apply IH.
    + intros H. apply app_nil. split.
      * destruct (H (f1, f2, dt, tq)) as [E|E]; [by left|..];
          simpl in E; by rewrite E.
      * apply IH. intros fp Hfp. apply H. by right.
Qed.

Lemma cast_nil_iff (l : list VoteKey) : cast l [] = [] ↔ l = [].
Proof.
  split; [|by intros ->].
  destruct l as [|x l]; [done|]. intros H. exfalso.
  assert (x ∈ (cast (x :: l) []).*1) as Hx by (apply cast_keys_elem; by left).
  rewrite H in Hx. by apply elem_of_nil in Hx.
Qed.

(** C1, as stated, fails: a hash key of the query is present in the
    database, with an empty bucket, and [query_multi_song] still returns
    [(None, None, 0)] rather than a [(song_name, offset)] pair. *)
Lemma query_multi_song_empty_bucket :
  (∃ fp, fp ∈ empty_bucket_query ∧ is_Some (empty_bucket_db !! fp_key fp)) ∧
  query_multi_song empty_bucket_query empty_bucket_db = (None, None, 0) ∧
  ¬ ∃ song_name offset score,
      query_multi_song empty_bucket_query empty_bucket_db
      = (Some song_name, Some offset, score).
Proof.
  assert (query_multi_song empty_bucket_query empty_bucket_db
          = (None, None, 0)) as Hres.
  { unfold query_multi_song, tally, empty_bucket_query, empty_bucket_db.
    simpl. by rewrite lookup_singleton_eq. }
  split.
  - exists (1, 2, 3, 0). split; [by left|].
    unfold empty_bucket_db. simpl. rewrite lookup_singleton_eq. eauto.
  - split; [exact Hres|]. rewrite Hres. intros (? & ? & ? & [=]).
Qed.

(** C1, amended. [query_multi_song] returns [(None, None, 0)] when the
    query casts no vote, that is when every query fingerprint's hash key
    is absent from [db] or has an empty bucket (in particular when the
    query or the database is empty). Otherwise it returns the
    [(song_name, offset)] pair with the maximum vote count, where each
    entry [(song_name, t_db)] under a query fingerprint's key gives one
    vote to [(song_name, t_db - t_query)]; the score is that pair's vote
    count; and among pairs with equal counts the winner is the one whose
    first vote came first: every pair voted for before the winner's first
    vote has strictly fewer votes. *)
Theorem query_multi_song_argmax
    (query_fingerprints : list fingerprint) (db : Database) :
  let votes_cast := ballots query_fingerprints db in
  (votes_cast = [] ↔
   ∀ fp, fp ∈ query_fingerprints →
         db !! fp_key fp = None ∨ db !! fp_key fp = Some []) ∧
  ((∀ fp, fp ∈ query_fingerprints → db !! fp_key fp = None) →
   query_multi_song query_fingerprints db = (None, None, 0)) ∧
  (votes_cast = [] →
   query_multi_song query_fingerprints db = (None, None, 0)) ∧
  (votes_cast ≠ [] →
   ∃ song_name offset pre post,
     query_multi_song query_fingerprints db
     = (Some song_name, Some offset,
        count_votes (song_name, offset) votes_cast) ∧
     votes_cast = pre ++ (song_name, offset) :: post ∧
     ((song_name, offset) ∉ pre) ∧
     (∀ key, count_votes key votes_cast
             ≤ count_votes (song_name, offset) votes_cast) ∧
     (∀ key, key ∈ pre →
             count_votes key votes_cast
             < count_votes (song_name, offset) votes_cast)).
Proof.
  intros votes_cast.
  assert (Hnil : votes_cast = [] →
                 query_multi_song query_fingerprints db = (None, None, 0)).
  { intros H. unfold query_multi_song. rewrite tally_cast.
    fold votes_cast. by rewrite H. }
  split; [apply ballots_nil_iff|].
  split.
  { intros H. apply Hnil, ballots_nil_iff. intros fp Hfp. left. by apply H. }
  split; [exact Hnil|].
  intros Hne. unfold query_multi_song. rewrite tally_cast. fold votes_cast.
  destruct (cast votes_cast []) as [|[k n] rest] eqn:Htable.
  { by apply cast_nil_iff in Htable. }
  destruct (max_from k n rest) as [[song offset] score] eqn:Hmax.
  destruct (max_from_spec k n rest (song, offset) score Hmax)
    as (i & Hi & Hbefore & Hall).
  rewrite <- Htable in Hi, Hbefore, Hall.
  pose proof (cast_keys_NoDup votes_cast) as Hnd.
  assert (Hscore : score = count_votes (song, offset) votes_cast).
  { rewrite <- votes_get_cast. symmetry. by eapply votes_get_NoDup. }
  assert (Hkey : (cast votes_cast []).*1 !! i = Some (song, offset)).
  { by rewrite list_lookup_fmap, Hi. }
  destruct (cast_keys_order votes_cast i (song, offset) Hkey)
    as (pre & post & Hsplit & Hpre & Horder).
  exists song, offset, pre, post. rewrite <- Hscore.
  split; [done|]. split; [done|]. split; [done|]. split.
  - intros key. destruct (decide (key ∈ votes_cast)) as [Hin|Hnin].
    + apply cast_keys_elem, list_elem_of_lookup in Hin as [j Hj].
      rewrite list_lookup_fmap in Hj.
      destruct (cast votes_cast [] !! j) as [[k' m]|] eqn:Hj'; [|done].
      simpl in Hj. injection Hj as ->.
      rewrite <- votes_get_cast, (votes_get_NoDup _ j key m Hnd Hj').
      apply (Hall (key, m)). apply list_elem_of_lookup. eauto.
    + rewrite count_votes_not_elem by done. rewrite Hscore.
      apply count_votes_nonneg.
  - intros key Hin. destruct (Horder key Hin) as (j & Hj & Hlook).
    rewrite list_lookup_fmap in Hlook.
    destruct (cast votes_cast [] !! j) as [[k' m]|] eqn:Hj'; [|done].
    simpl in Hlook. injection Hlook as ->.
    rewrite <- votes_get_cast, (votes_get_NoDup _ j key m Hnd Hj').
    apply (Hbefore j (key, m) Hj Hj').
Qed.

Lemma query_multi_song_argmax_witness :
  query_multi_song tie_query tie_db = (Some "A", Some 10, 2) ∧
  ∃ song_name offset pre post,
    query_multi_song tie_query tie_db
    = (Some song_name, Some offset,
       count_votes (song_name, offset) (ballots tie_query tie_db)) ∧
    ballots tie_query tie_db = pre ++ (song_name, offset) :: post ∧
    (song_name, offset) ∉ pre.
Proof.
  split; [vm_compute; reflexivity|].
  destruct (query_multi_song_argmax tie_query tie_db) as (_ & _ & _ & H).
  destruct H as (song & offset & pre & post & Hres & Hsplit & Hpre & _).
  - vm_compute. discriminate.
  - exists song, offset, pre, post. done.
Defined.

(** ** The service *)

Lemma add_fingerprints_lookup_eq (song_name : string)
    (fingerprints : list fingerprint) (db : Database) (key : Z * Z * Z) :
  add_fingerprints song_name fingerprints db !! key
  = if decide (entries_for song_name fingerprints key = [])
    then db !! key
    else Some (default [] (db !! key)
               ++ entries_for song_name fingerprints key).
Proof.
  unfold add_fingerprints, entries_for. revert db.
  induction fingerprints as [|[[[f1 f2] dt] t1] fps IH]; intros db; [done|].
  cbn [fold_left]. rewrite IH. unfold db_append.
  destruct (decide ((f1, f2, dt) = key)) as [Heq|Hne].
  - subst key. rewrite filter_cons_True by done. rewrite fmap_cons.
    rewrite lookup_insert_eq. cbn [default].
    case_decide as Hrest; case_decide as Hall; try done.
    + by rewrite Hrest.
    + unfold id. rewrite <- app_assoc. done.
  - rewrite filter_cons_False by done. by rewrite lookup_insert_ne.
Qed.

Lemma build_song_database_single (song_name : string)
    (fingerprints : list fingerprint) :
  build_song_database [(song_name, fingerprints)]
  = (add_fingerprints song_name fingerprints ∅,
     {[song_name :=
         {["num_fingerprints" := Int (Z.of_nat (length fingerprints))]}]}).
Proof. done. Qed.

Lemma merge_db_lookup (db : Database) (song_name : string)
    (fingerprints : list fingerprint) (key : Z * Z * Z) :
  merge_db db (add_fingerprints song_name fingerprints ∅) !! key
  = match db !! key with
    | Some old => Some (old ++ entries_for song_name fingerprints key)
    | None =>
        if decide (entries_for song_name fingerprints key = []) then None
        else Some (entries_for song_name fingerprints key)
    end.
Proof.
  unfold merge_db. rewrite lookup_union_with, add_fingerprints_lookup_eq.
  rewrite lookup_empty. cbn [default].
  destruct (db !! key) as [old|]; case_decide as HE; simpl; try done.
  by rewrite HE, app_nil_r.
Qed.

(** C6, as stated, fails: ingesting "Song A" a second time is accepted
    with a success report, and the new entries are appended to the old
    ones of the same id in the same bucket. *)
Lemma add_song_again_not_rejected :
  is_Some (metadata song_a_service !! "Song A") ∧
  db song_a_service !! (0, 2, 2) = Some [("Song A", 0)] ∧
  (add_song (list (list bool)) sample_audio sample_len mask_front_end
     song_a_service song_a_disk "a.wav" "Song A").2
  = (true, 9, "Successfully added Song A") ∧
  db (add_song (list (list bool)) sample_audio sample_len mask_front_end
        song_a_service song_a_disk "a.wav" "Song A").1.1 !! (0, 2, 2)
  = Some [("Song A", 0); ("Song A", 0)].
Proof.
  split; [|split; [|split]].
  - eexists. vm_compute. reflexivity.
  - vm_compute. reflexivity.
  - vm_compute. reflexivity.
  - vm_compute. reflexivity.
Qed.

(** C6, amended. When a recording id that is already in the metadata is
    ingested again and loading and fingerprinting succeed, [add_song]
    does not reject the call: it reports success with the number of new
    fingerprints, every bucket keeps its existing entries and receives
    the new entries of its key after them, a key that had no bucket gets
    one exactly when the new fingerprints have entries for it, the
    metadata of the id is replaced by the new fingerprint count and
    duration, and the metadata of every other id is unchanged. *)
Theorem add_song_existing_id
    (signal : Type) (load_audio : string → Z → outcome signal)
    (len : signal → Z)
    (peak_mask :
       signal → Z → Z → Z → Z → param → Z → outcome (list (list bool)))
    (s : service) (d : disk) (audio_path song_name : string)
    (sr : Z) (y : signal) (fingerprints : list fingerprint)
    (Hexists : is_Some (metadata s !! song_name))
    (Hsr : config_int s "sr" = Returns sr)
    (Hnonzero : sr ≠ 0)
    (Hload : load_audio audio_path sr = Returns y)
    (Hextract : extract_with_config signal peak_mask s y sr
                = Returns fingerprints) :
  ∃ s' d',
    add_song signal load_audio len peak_mask s d audio_path song_name
    = (s', d',
       (true, Z.of_nat (length fingerprints),
        "Successfully added " +:+ song_name)) ∧
    (∀ key old,
       db s !! key = Some old →
       db s' !! key = Some (old ++ entries_for song_name fingerprints key)) ∧
    (∀ key,
       db s !! key = None →
       db s' !! key
       = if decide (entries_for song_name fingerprints key = []) then None
         else Some (entries_for song_name fingerprints key)) ∧
    metadata s' !! song_name
    = Some (<["duration_seconds" :=
                Float (Qdiv (inject_Z (len y)) (inject_Z sr))]>
              {["num_fingerprints" :=
                  Int (Z.of_nat (length fingerprints))]}) ∧
    (∀ other, other ≠ song_name →
              metadata s' !! other = metadata s !! other).
Proof.
  unfold add_song. rewrite Hsr. unfold mbind at 1, outcome_bind at 1.
  rewrite Hload. unfold mbind at 1, outcome_bind at 1.
  rewrite Hextract. unfold mbind, outcome_bind, mret, outcome_ret.
  rewrite build_song_database_single, lookup_singleton_eq.
  unfold truediv. destruct (Z.eqb_spec sr 0) as [|_]; [done|].
  destruct (save_database _ d) as [d' saved] eqn:Hsave.
  eexists _, d'. split; [reflexivity|]. simpl.
  split; [|split; [|split]].
  - intros key old Hold. by rewrite merge_db_lookup, Hold.
  - intros key Hnone. by rewrite merge_db_lookup, Hnone.
  - by rewrite lookup_insert_eq.
  - intros other Hother. by rewrite !lookup_insert_ne.
Qed.

Lemma add_song_existing_id_witness :
  ∃ s' d',
    add_song (list (list bool)) sample_audio sample_len mask_front_end
      song_a_service song_a_disk "a.wav" "Song A"
    = (s', d', (true, 9, "Successfully added Song A")) ∧
    db s' !! (0, 2, 2) = Some [("Song A", 0); ("Song A", 0)].
Proof.
  destruct (add_song_existing_id (list (list bool)) sample_audio sample_len
              mask_front_end song_a_service song_a_disk "a.wav" "Song A"
              44100 sample_mask
              [(0, 2, 2, 0); (0, 0, 3, 0); (0, 1, 4, 0); (2, 2, 2, 0);
               (2, 0, 3, 0); (2, 1, 4, 0); (1, 0, 2, 1); (1, 1, 3, 1);
               (2, 1, 2, 2)])
    as (s' & d' & Hrun & Hold & _).
  - eexists. vm_compute. reflexivity.
  - vm_compute. reflexivity.
  - lia.
  - reflexivity.
  - vm_compute. reflexivity.
  - exists s', d'. split; [exact Hrun|].
    apply (Hold (0, 2, 2) [("Song A", 0)]). vm_compute. reflexivity.
Defined.

(** C7, as stated, fails: a service whose configuration has a different
    [n_fft] loads the snapshot written under the default configuration;
    [load_database] returns [True] and installs the saved entries. *)
Lemma load_database_accepts_other_config :
  config other_config_service !! "n_fft" = Some (PInt 4096) ∧
  config song_a_service !! "n_fft" = Some (PInt 2048) ∧
  (load_database other_config_service song_a_disk).2 = true ∧
  db (load_database other_config_service song_a_disk).1
  = db song_a_service ∧
  metadata (load_database other_config_service song_a_disk).1
  = metadata song_a_service.
Proof.
  split; [|split; [|split; [|split]]]; vm_compute; reflexivity.
Qed.

(** C7, amended. [load_database] makes no version or configuration
    check and raises nothing: the snapshot that [save_database] writes
    holds only [db] and [metadata] and so does not depend on the
    configuration of the service that wrote it, and a service of any
    configuration that loads it from the same path returns [True] and
    takes over the saved [db] and [metadata] while keeping its own
    configuration. *)
Theorem load_database_ignores_config
    (saved loading : service) (d : disk)
    (Hwritable : read_only d = false)
    (Hpath : db_path loading = db_path saved) :
  (∀ other_config,
     save_database
       (AudioFingerprintingService (db_path saved) (db saved)
          (metadata saved) other_config) d
     = save_database saved d) ∧
  (save_database saved d).2 = true ∧
  load_database loading (save_database saved d).1
  = (AudioFingerprintingService (db_path loading) (db saved)
       (metadata saved) (config loading),
     true).
Proof.
  unfold save_database, load_database. rewrite Hwritable. simpl.
  split; [done|]. split; [done|].
  rewrite <- Hpath, lookup_insert_eq. done.
Qed.

Lemma load_database_ignores_config_witness :
  load_database other_config_service
    (save_database song_a_service empty_disk).1
  = (AudioFingerprintingService "fingerprint_db.pkl" (db song_a_service)
       (metadata song_a_service) (<["n_fft" := PInt 4096]> DEFAULT_CONFIG),
     true).
Proof.
  apply (load_database_ignores_config song_a_service other_config_service
           empty_disk); reflexivity.
Defined.

(** C8, as stated, fails: when decoding the query raises, the recognize
    path returns a [matched = False] dictionary that reports the error in
    its message and has no [raw_score] key. *)
Lemma recognize_audio_swallows_error :
  recognize_audio (list (list bool)) failing_audio mask_front_end
    song_a_service "query.wav" !! "matched" = Some (VBool false) ∧
  recognize_audio (list (list bool)) failing_audio mask_front_end
    song_a_service "query.wav" !! "message"
  = Some (VStr "Error during recognition: cannot decode") ∧
  recognize_audio (list (list bool)) failing_audio mask_front_end
    song_a_service "query.wav" !! "raw_score" = None.
Proof. split; [|split]; vm_compute; reflexivity. Qed.

Lemma interpret_match_unmatched song_name best_offset score hop_length sr
    (result : gmap string pyval) :
  interpret_match song_name best_offset score hop_length sr = Returns result →
  result !! "matched" = Some (VBool false) →
  result = no_match_result score.
Proof.
  unfold interpret_match.
  destruct (_ || _ || _); [by intros [= <-]|].
  destruct song_name as [song|]; [|done].
  destruct best_offset as [offset|]; [|done].
  unfold mbind, outcome_bind. destruct (truediv _ sr); [|done].
  intros [= <-]. by rewrite lookup_insert_eq.
Qed.

(** C8, amended. [recognize_audio] catches every exception raised while
    loading, fingerprinting, matching or interpreting and returns the
    dictionary [{matched: False, message: "Error during recognition: ..."}],
    which has no [raw_score] key; when nothing is raised it returns the
    dictionary of [interpret_match], and that dictionary, when its
    [matched] entry is false, is the non-match result with the keys
    [matched], [message] and [raw_score]. *)
Theorem recognize_audio_outcomes
    (signal : Type) (load_audio : string → Z → outcome signal)
    (peak_mask :
       signal → Z → Z → Z → Z → param → Z → outcome (list (list bool)))
    (s : service) (audio_path : string) :
  (∀ e,
     recognize_try signal load_audio peak_mask s audio_path = Raises e →
     recognize_audio signal load_audio peak_mask s audio_path
     = <["matched" := VBool false]>
       (<["message" := VStr ("Error during recognition: " +:+ exn_str e)]> ∅)
     ∧ recognize_audio signal load_audio peak_mask s audio_path
         !! "raw_score" = None) ∧
  (∀ result,
     recognize_try signal load_audio peak_mask s audio_path
     = Returns result →
     recognize_audio signal load_audio peak_mask s audio_path = result ∧
     (result !! "matched" = Some (VBool false) →
      ∃ score,
        result = no_match_result score ∧
        result !! "message" = Some (VStr "No matching song detected") ∧
        result !! "raw_score" = Some (VInt score))).
Proof.
  unfold recognize_audio. split.
  - intros e ->. split; [done|]. by rewrite !lookup_insert_ne.
  - intros result Htry. rewrite Htry. split; [done|]. intros Hfalse.
    unfold recognize_try, mbind, outcome_bind in Htry.
    destruct (config_int s "sr") as [sr|]; [|done].
    destruct (load_audio audio_path sr) as [y|]; [|done].
    destruct (extract_with_config _ _ _ _ _) as [fps|]; [|done].
    destruct (query_multi_song fps (db s)) as [[song offset] score].
    destruct (config_int s "n_fft") as [n_fft|]; [|done].
    destruct (config_int s "hop_ratio") as [hop_ratio|]; [|done].
    destruct (floordiv n_fft hop_ratio) as [hop_length|]; [|done].
    exists score.
    apply interpret_match_unmatched in Htry; [|done]. subst result.
    destruct (no_match_result_keys score) as (_ & Hmsg & Hscore). done.
Qed.

Lemma recognize_audio_outcomes_witness :
  recognize_audio (list (list bool)) failing_audio mask_front_end
    song_a_service "query.wav"
  = <["matched" := VBool false]>
    (<["message" := VStr "Error during recognition: cannot decode"]> ∅).
Proof.
  apply (proj1 (recognize_audio_outcomes (list (list bool)) failing_audio
                  mask_front_end song_a_service "query.wav")
           (OtherError "cannot decode")).
  vm_compute. reflexivity.
Defined.

(** * Further properties of the code *)

(** ** The peak list and the peak array *)

Lemma row_where_elem (f t0 : Z) (row : list bool) (f' t' : Z) :
  (f', t') ∈ row_where f t0 row ↔
  f' = f ∧ t0 ≤ t' ∧ row !! Z.to_nat (t' - t0) = Some true.
Proof.
  revert t0. induction row as [|b row IH]; intros t0; simpl.
  - split; [intros H; by apply elem_of_nil in H|]. by intros (_ & _ & ?).
  - rewrite elem_of_app, IH. split.
    + intros [Hhead|(-> & Hle & Hlook)].
      * destruct b; [|by apply elem_of_nil in Hhead].
        apply list_elem_of_singleton in Hhead. injection Hhead as -> ->.
        split; [done|]. split; [lia|]. by rewrite Z.sub_diag.
      * split; [done|]. split; [lia|].
        replace (Z.to_nat (t' - t0)) with (S (Z.to_nat (t' - (t0 + 1))))
          by lia.
        done.
    + intros (-> & Hle & Hlook).
      destruct (decide (t' = t0)) as [->|Hne].
      * rewrite Z.sub_diag in Hlook. simpl in Hlook. injection Hlook as ->.
        left. by apply list_elem_of_singleton.
      * right. split; [done|]. split; [lia|].
        replace (Z.to_nat (t' - t0)) with (S (Z.to_nat (t' - (t0 + 1))))
          in Hlook by lia.
        done.
Qed.

Lemma where_from_elem (f0 : Z) (rows : list (list bool)) (f t : Z) :
  (f, t) ∈ where_from f0 rows ↔
  f0 ≤ f ∧ 0 ≤ t ∧
  ∃ row, rows !! Z.to_nat (f - f0) = Some row ∧
         row !! Z.to_nat t = Some true.
Proof.
  revert f0. induction rows as [|row rows IH]; intros f0; simpl.
  - split; [intros H; by apply elem_of_nil in H|].
    by intros (_ & _ & r & ? & _).
  - rewrite elem_of_app, row_where_elem, IH. split.
    + intros [(-> & Ht & Hlook)|(Hf & Ht & r & Hr & Hlook)].
      * split; [lia|]. split; [done|]. exists row.
        rewrite Z.sub_diag. split; [done|]. by rewrite Z.sub_0_r in Hlook.
      * split; [lia|]. split; [done|]. exists r. split; [|done].
        replace (Z.to_nat (f - f0)) with (S (Z.to_nat (f - (f0 + 1)))) by lia.
        done.
    + intros (Hf & Ht & r & Hr & Hlook).
      destruct (decide (f = f0)) as [->|Hne].
      * left. rewrite Z.sub_diag in Hr. simpl in Hr. injection Hr as ->.
        split; [done|]. split; [done|]. by rewrite Z.sub_0_r.
      * right. split; [lia|]. split; [done|]. exists r. split; [|done].
        replace (Z.to_nat (f - f0)) with (S (Z.to_nat (f - (f0 + 1))))
          in Hr by lia.
        done.
Qed.

Lemma peak_list_elem (peaks : list (list bool)) (t f : Z) :
  (t, f) ∈ peak_list_of peaks ↔ is_peak peaks t f.
Proof.
  unfold peak_list_of, is_peak.
  pose proof (zip_np_where peaks) as Hzip.
  destruct (np_where peaks) as [freq_idx time_idx]. simpl in Hzip.
  rewrite Hzip, sort_by_time_Permutation, list_elem_of_fmap. split.
  - intros ([f' t'] & [= -> ->] & Hin).
    apply where_from_elem in Hin as (Hf & Ht & row & Hrow & Hlook).
    rewrite Z.sub_0_r in Hrow. eauto 6.
  - intros (Ht & Hf & row & Hrow & Hlook). exists (f, t). split; [done|].
    apply where_from_elem. split; [done|]. split; [done|].
    exists row. by rewrite Z.sub_0_r.
Qed.

(** X1. The peak list holds exactly the true cells of the peak array,
    each of them once. *)
Theorem peak_list_is_the_mask (peaks : list (list bool)) :
  (∀ t f, (t, f) ∈ peak_list_of peaks ↔ is_peak peaks t f) ∧
  NoDup (peak_list_of peaks).
Proof.
  split; [apply peak_list_elem|].
  apply peak_lt_NoDup, peak_list_strictly_sorted.
Qed.

(** ** Structure of the emitted fingerprints *)

Section PairingStructure.
Variables (fanout dt_min dt_max : Z).

Lemma scan_targets_target (t1 f1 count : Z) (targets : list peak)
    (fp : fingerprint) :
  fp ∈ scan_targets fanout dt_min dt_max t1 f1 count targets →
  fp_target fp ∈ targets.
Proof.
  revert count. induction targets as [|[t2 f2] rest IH]; intros count; simpl.
  - intros Hin. by apply elem_of_nil in Hin.
  - destruct (t2 - t1 <? dt_min); [intros Hin; right; by eapply IH|].
    destruct (dt_max <? t2 - t1).
    { intros Hin. by apply elem_of_nil in Hin. }
    intros [->|Hin]%elem_of_cons.
    + apply elem_of_cons. left. simpl. f_equal. lia.
    + destruct (fanout <=? count + 1).
      * by apply elem_of_nil in Hin.
      * right. by eapply IH.
Qed.

Lemma scan_targets_NoDup (t1 f1 count : Z) (targets : list peak) :
  NoDup targets →
  NoDup (scan_targets fanout dt_min dt_max t1 f1 count targets).
Proof.
  intros Hnd. revert count.
  induction Hnd as [|[t2 f2] rest Hnotin Hnd IH]; intros count; simpl.
  - constructor.
  - destruct (t2 - t1 <? dt_min); [apply IH|].
    destruct (dt_max <? t2 - t1); [constructor|].
    constructor.
    + destruct (fanout <=? count + 1); [apply not_elem_of_nil|].
      intros Hin. apply scan_targets_target in Hin. simpl in Hin.
      apply Hnotin. replace (t1 + (t2 - t1)) with t2 in Hin by lia. done.
    + destruct (fanout <=? count + 1); [constructor|apply IH].
Qed.

Lemma pair_peaks_NoDup (peak_list : list peak) :
  NoDup peak_list → NoDup (pair_peaks fanout dt_min dt_max peak_list).
Proof.
  intros Hnd. induction Hnd as [|[t1 f1] rest Hnotin Hnd IH]; simpl.
  - constructor.
  - apply NoDup_app. split; [by apply scan_targets_NoDup|]. split; [|done].
    intros fp Hscan Hrest.
    apply scan_targets_spec in Hscan as [_ Hanchor].
    apply pair_peaks_anchor in Hrest. rewrite Hanchor in Hrest. done.
Qed.

(** A fingerprint pairs an entry of the peak list with a later one. *)
Lemma pair_peaks_split (peak_list : list peak) (fp : fingerprint) :
  fp ∈ pair_peaks fanout dt_min dt_max peak_list →
  ∃ pre rest,
    peak_list = pre ++ fp_anchor fp :: rest ∧ fp_target fp ∈ rest.
Proof.
  induction peak_list as [|[t1 f1] rest IH]; simpl.
  - intros Hin. by apply elem_of_nil in Hin.
  - intros [Hin|Hin]%elem_of_app.
    + exists [], rest.
      pose proof (scan_targets_spec _ _ _ _ _ _ _ _ Hin) as [_ ->].
      split; [done|]. by eapply scan_targets_target.
    + destruct (IH Hin) as (pre & rest' & -> & Htarget).
      exists ((t1, f1) :: pre), rest'. done.
Qed.

(** On a list sorted by time, the break at the first target beyond
    [dt_max] loses no target within the bounds: such a target is paired
    unless the anchor's quota is used up. *)
Lemma scan_targets_complete (t1 f1 count : Z) (targets : list peak)
    (t2 f2 : Z) :
  StronglySorted peak_lt targets → count < fanout →
  (t2, f2) ∈ targets → dt_min ≤ t2 - t1 ≤ dt_max →
  (f1, f2, t2 - t1, t1)
    ∈ scan_targets fanout dt_min dt_max t1 f1 count targets ∨
  Z.of_nat (length (scan_targets fanout dt_min dt_max t1 f1 count targets))
  = fanout - count.
Proof.
  intros Hs. revert count.
  induction Hs as [|[t f] rest Hs IH Hhead]; intros count Hcount Hin Hdt.
  - by apply elem_of_nil in Hin.
  - simpl. rewrite Forall_forall in Hhead.
    destruct (Z.ltb_spec (t - t1) dt_min) as [Hlow|Hlow].
    { apply elem_of_cons in Hin as [[= -> ->]|Hin]; [lia|]. by apply IH. }
    destruct (Z.ltb_spec dt_max (t - t1)) as [Hhigh|Hhigh].
    { exfalso. apply elem_of_cons in Hin as [[= -> ->]|Hin]; [lia|].
      specialize (Hhead _ Hin). unfold peak_lt in Hhead. simpl in Hhead. lia. }
    apply elem_of_cons in Hin as [[= -> ->]|Hin]; [left; by left|].
    destruct (Z.leb_spec fanout (count + 1)) as [Hfull|Hroom].
    + right. simpl. lia.
    + destruct (IH (count + 1) Hroom Hin Hdt) as [Hfp|Hlen].
      * left. by right.
      * right. simpl length. lia.
Qed.

Lemma pair_peaks_filter_anchor (pre rest : list peak) (t1 f1 : Z) :
  NoDup (pre ++ (t1, f1) :: rest) →
  filter (fun fp => fp_anchor fp = (t1, f1))
    (pair_peaks fanout dt_min dt_max (pre ++ (t1, f1) :: rest))
  = scan_targets fanout dt_min dt_max t1 f1 0 rest.
Proof.
  induction pre as [|[t f] pre IH]; simpl; intros Hnd.
  - apply NoDup_cons in Hnd as [Hnotin Hnd]. rewrite filter_app.
    rewrite (filter_none _ (pair_peaks _ _ _ rest)).
    + rewrite app_nil_r.
      assert (Forall (fun fp => fp_anchor fp = (t1, f1))
                (scan_targets fanout dt_min dt_max t1 f1 0 rest)) as Hall.
      { apply Forall_forall. intros fp Hfp.
        by apply scan_targets_spec in Hfp as [_ ?]. }
      induction Hall as [|fp l Hfp Hall IHl]; [done|].
      by rewrite filter_cons_True, IHl.
    + intros fp Hfp Heq. apply pair_peaks_anchor in Hfp.
      rewrite Heq in Hfp. done.
  - apply NoDup_cons in Hnd as [Hnotin Hnd]. rewrite filter_app.
    rewrite (filter_none _ (scan_targets _ _ _ _ _ _ _)); [by apply IH|].
    intros fp Hfp Heq. apply scan_targets_spec in Hfp as [_ Hfp].
    apply Hnotin. rewrite <- Hfp, Heq. apply elem_of_app. right. by left.
Qed.

End PairingStructure.

Lemma StronglySorted_middle {A} (R : A → A → Prop) (l1 l2 : list A) (x : A) :
  StronglySorted R (l1 ++ x :: l2) →
  Forall (fun y => R y x) l1 ∧ StronglySorted R (x :: l2).
Proof.
  induction l1 as [|y l1 IH]; simpl; intros Hs; [by split|].
  apply StronglySorted_inv in Hs as [Hs Hy].
  destruct (IH Hs) as [Hall Hx]. split; [|done].
  constructor; [|done].
  rewrite Forall_forall in Hy. apply Hy. apply elem_of_app. right. by left.
Qed.

Lemma sorted_later (l : list peak) (p q : peak) :
  StronglySorted peak_lt l → p ∈ l → q ∈ l → peak_lt p q →
  ∃ pre rest, l = pre ++ p :: rest ∧ q ∈ rest ∧ StronglySorted peak_lt rest.
Proof.
  intros Hs Hp Hq Hpq.
  apply list_elem_of_split in Hp as (pre & rest & ->).
  destruct (StronglySorted_middle _ _ _ _ Hs) as [Hpre Hrest].
  apply StronglySorted_inv in Hrest as [Hrest _].
  exists pre, rest. split; [done|]. split; [|done].
  apply elem_of_app in Hq as [Hq|Hq].
  - rewrite Forall_forall in Hpre. specialize (Hpre q Hq).
    unfold peak_lt in *. lia.
  - apply elem_of_cons in Hq as [->|Hq]; [|done].
    unfold peak_lt in Hpq. lia.
Qed.

(** X2. Every fingerprint [(f1, f2, dt, t1)] returned by
    [extract_fingerprints] pairs two true cells of the peak array: the
    anchor [peaks[f1][t1]] and the target [peaks[f2][t1 + dt]]; the target
    follows the anchor in time, or shares its frame and has the higher
    frequency bin, so [dt] is never negative, whatever [dt_min] is. *)
Theorem fingerprints_pair_peaks
    (signal : Type)
    (peak_mask :
       signal → Z → Z → Z → Z → param → Z → outcome (list (list bool)))
    (y : signal) (sr n_fft hop_ratio freq_neighborhood time_neighborhood : Z)
    (amplitude_threshold : param) (num_bands fanout dt_min : Z)
    (dt_max_seconds : param) (fingerprints : list fingerprint)
    (Hret : extract_fingerprints signal peak_mask y sr n_fft hop_ratio
              freq_neighborhood time_neighborhood amplitude_threshold
              num_bands fanout dt_min dt_max_seconds
            = Returns fingerprints) :
  ∃ peaks,
    peak_mask y n_fft (n_fft / hop_ratio) freq_neighborhood
      time_neighborhood amplitude_threshold num_bands = Returns peaks ∧
    ∀ f1 f2 dt t1,
      (f1, f2, dt, t1) ∈ fingerprints →
      is_peak peaks t1 f1 ∧ is_peak peaks (t1 + dt) f2 ∧
      (0 < dt ∨ (dt = 0 ∧ f1 < f2)).
Proof.
  apply extract_fingerprints_dt_max in Hret
    as (peaks & dt_max & _ & Hmask & _ & ->).
  exists peaks. split; [done|]. intros f1 f2 dt t1 Hin.
  apply pair_peaks_split in Hin as (pre & rest & Hsplit & Htarget).
  simpl in Hsplit, Htarget.
  pose proof (peak_list_strictly_sorted peaks) as Hs. rewrite Hsplit in Hs.
  destruct (StronglySorted_middle _ _ _ _ Hs) as [_ Hrest].
  apply StronglySorted_inv in Hrest as [_ Hall].
  rewrite Forall_forall in Hall. specialize (Hall _ Htarget).
  unfold peak_lt in Hall. simpl in Hall.
  split; [|split; [|lia]]; apply peak_list_elem; rewrite Hsplit;
    apply elem_of_app; right; [by left|by right].
Qed.

Lemma fingerprints_pair_peaks_witness :
  ∃ peaks,
    mask_front_end sample_mask 8 (8 / 2) 20 20 (PInt (-35)) 6
    = Returns peaks ∧
    is_peak peaks 2 2 ∧ is_peak peaks (2 + 2) 1.
Proof.
  destruct (fingerprints_pair_peaks (list (list bool)) mask_front_end
              sample_mask 4 8 2 20 20 (PInt (-35)) 6 10 1 (PFloat (float_literal (2 # 1)))
              _ eq_refl) as (peaks & Hmask & Hall).
  exists peaks. split; [exact Hmask|].
  destruct (Hall 2 1 2 2) as (Ha & Ht & _); [|by split].
  apply list_elem_of_lookup. by exists 7%nat.
Defined.

(** X3. [extract_fingerprints] returns no fingerprint twice. *)
Theorem fingerprints_distinct
    (signal : Type)
    (peak_mask :
       signal → Z → Z → Z → Z → param → Z → outcome (list (list bool)))
    (y : signal) (sr n_fft hop_ratio freq_neighborhood time_neighborhood : Z)
    (amplitude_threshold : param) (num_bands fanout dt_min : Z)
    (dt_max_seconds : param) (fingerprints : list fingerprint)
    (Hret : extract_fingerprints signal peak_mask y sr n_fft hop_ratio
              freq_neighborhood time_neighborhood amplitude_threshold
              num_bands fanout dt_min dt_max_seconds
            = Returns fingerprints) :
  NoDup fingerprints.
Proof.
  apply extract_fingerprints_dt_max in Hret
    as (peaks & dt_max & _ & _ & _ & ->).
  apply pair_peaks_NoDup, peak_lt_NoDup, peak_list_strictly_sorted.
Qed.

Lemma fingerprints_distinct_witness :
  NoDup [(0, 1, 1, 0); (0, 2, 2, 0); (2, 1, 1, 0); (2, 2, 2, 0);
         (1, 2, 1, 1); (1, 0, 2, 1); (2, 0, 1, 2); (2, 1, 2, 2);
         (0, 1, 1, 3)].
Proof.
  apply (fingerprints_distinct (list (list bool)) mask_front_end
           sample_mask 4 8 2 20 20 (PInt (-35)) 6 10 1 (PFloat (float_literal (2 # 1)))).
  reflexivity.
Defined.

(** X4. With [fanout >= 1], the pairing drops a pair of peaks only through
    the fan-out cap: for an anchor cell and a target cell of the peak
    array, the target later in (time, frequency) order and their time
    distance within [dt_min .. dt_max], where [dt_max] is the value of
    [int(dt_max_seconds * sr / hop_length)] as the code computes it,
    either the fingerprint of the pair is returned or the anchor already
    has [fanout] fingerprints. *)
Theorem pairing_complete_up_to_fanout
    (signal : Type)
    (peak_mask :
       signal → Z → Z → Z → Z → param → Z → outcome (list (list bool)))
    (y : signal) (sr n_fft hop_ratio freq_neighborhood time_neighborhood : Z)
    (amplitude_threshold : param) (num_bands fanout dt_min : Z)
    (dt_max_seconds : param) (fingerprints : list fingerprint)
    (peaks : list (list bool)) (t1 f1 t2 f2 dt_max : Z)
    (Hfanout : 1 ≤ fanout)
    (Hret : extract_fingerprints signal peak_mask y sr n_fft hop_ratio
              freq_neighborhood time_neighborhood amplitude_threshold
              num_bands fanout dt_min dt_max_seconds
            = Returns fingerprints)
    (Hmask : peak_mask y n_fft (n_fft / hop_ratio) freq_neighborhood
               time_neighborhood amplitude_threshold num_bands
             = Returns peaks)
    (Hmax : dt_max_of dt_max_seconds sr (n_fft / hop_ratio)
            = Returns dt_max)
    (Hanchor : is_peak peaks t1 f1) (Htarget : is_peak peaks t2 f2)
    (Horder : t1 < t2 ∨ (t1 = t2 ∧ f1 < f2))
    (Hdt : dt_min ≤ t2 - t1 ≤ dt_max) :
  (f1, f2, t2 - t1, t1) ∈ fingerprints ∨
  Z.of_nat
    (length (filter (fun fp => fp_anchor fp = (t1, f1)) fingerprints))
  = fanout.
Proof.
  apply extract_fingerprints_dt_max in Hret
    as (peaks' & dt_max' & _ & Hmask' & Hmax' & ->).
  rewrite Hmask in Hmask'. injection Hmask' as <-.
  rewrite Hmax in Hmax'. injection Hmax' as <-.
  apply peak_list_elem in Hanchor, Htarget.
  pose proof (peak_list_strictly_sorted peaks) as Hs.
  destruct (sorted_later _ (t1, f1) (t2, f2) Hs Hanchor Htarget Horder)
    as (pre & rest & Hsplit & Hin & Hrest).
  pose proof (peak_lt_NoDup _ Hs) as Hnd. rewrite Hsplit in Hnd |- *.
  pose proof (pair_peaks_filter_anchor fanout dt_min dt_max
                pre rest t1 f1 Hnd) as Hfilter.
  destruct (scan_targets_complete fanout dt_min _ t1 f1 0 rest t2 f2
              Hrest ltac:(lia) Hin Hdt) as [Hfp|Hlen].
  - left. rewrite <- Hfilter in Hfp.
    by apply list_elem_of_filter in Hfp as [_ Hfp].
  - right.
    match goal with
    | |- Z.of_nat (length ?l) = _ =>
        replace l with
          (scan_targets fanout dt_min dt_max t1 f1 0 rest)
          by (symmetry; exact Hfilter)
    end.
    lia.
Qed.

Lemma pairing_complete_up_to_fanout_witness :
  (0, 1, 4 - 3, 3)
    ∈ [(0, 1, 1, 0); (2, 1, 1, 0); (1, 2, 1, 1); (2, 0, 1, 2); (0, 1, 1, 3)]
  ∨ Z.of_nat
      (length
         (filter (fun fp => fp_anchor fp = (3, 0))
            [(0, 1, 1, 0); (2, 1, 1, 0); (1, 2, 1, 1); (2, 0, 1, 2);
             (0, 1, 1, 3)]))
    = 1.
Proof.
  apply (pairing_complete_up_to_fanout (list (list bool)) mask_front_end
           sample_mask 4 8 2 20 20 (PInt (-35)) 6 1 1
           (PFloat (float_literal (2 # 1))) _ sample_mask 3 0 4 1 2).
  - lia.
  - vm_compute. reflexivity.
  - reflexivity.
  - vm_compute. reflexivity.
  - split; [lia|]. split; [lia|]. by eexists.
  - split; [lia|]. split; [lia|]. by eexists.
  - lia.
  - lia.
Defined.

(** ** Contents of a built database *)

Lemma build_song_database_fold
    (song_fingerprints : list (string * list fingerprint))
    (db : Database) (metadata : Metadata) (key : Z * Z * Z) :
  (fold_left
     (fun '(db, metadata) '(song_name, fingerprints) =>
        (add_fingerprints song_name fingerprints db,
         <[song_name :=
             {["num_fingerprints" := Int (Z.of_nat (length fingerprints))]}]>
           metadata))
     song_fingerprints (db, metadata)).1 !! key
  = if decide (bucket_of song_fingerprints key = []) then db !! key
    else Some (default [] (db !! key) ++ bucket_of song_fingerprints key).
Proof.
  revert db metadata.
  induction song_fingerprints as [|[name fps] rest IH]; intros db md; [done|].
  cbn [fold_left]. rewrite IH, add_fingerprints_lookup_eq.
  replace (bucket_of ((name, fps) :: rest) key)
    with (entries_for name fps key ++ bucket_of rest key) by done.
  generalize (entries_for name fps key) (bucket_of rest key).
  intros [|e1 E1] [|e2 E2]; repeat case_decide; simplify_eq; simpl;
    rewrite ?app_nil_r, <- ?app_assoc; done.
Qed.

Lemma entries_for_elem (song_name : string) (fingerprints : list fingerprint)
    (f1 f2 dt : Z) (song : string) (t : Z) :
  (song, t) ∈ entries_for song_name fingerprints (f1, f2, dt) ↔
  song = song_name ∧ (f1, f2, dt, t) ∈ fingerprints.
Proof.
  unfold entries_for. rewrite list_elem_of_fmap. split.
  - intros ([[[g1 g2] d] t1] & [= -> ->] & Hin).
    apply list_elem_of_filter in Hin as [Hkey Hin].
    simpl in Hkey. injection Hkey as -> -> ->. done.
  - intros [-> Hin]. exists (f1, f2, dt, t). split; [done|].
    apply list_elem_of_filter. done.
Qed.

Lemma bucket_of_elem (song_fingerprints : list (string * list fingerprint))
    (f1 f2 dt : Z) (song : string) (t : Z) :
  (song, t) ∈ bucket_of song_fingerprints (f1, f2, dt) ↔
  ∃ fingerprints,
    (song, fingerprints) ∈ song_fingerprints ∧
    (f1, f2, dt, t) ∈ fingerprints.
Proof.
  unfold bucket_of. rewrite list_elem_of_bind. split.
  - intros ([name fps] & Hin & Hitem).
    apply entries_for_elem in Hin as [-> Hin]. eauto.
  - intros (fps & Hitem & Hin). exists (song, fps). split; [|done].
    by apply entries_for_elem.
Qed.

(** X5. What [build_song_database] stores can be read back: the bucket
    of a hash key holds, in ingestion order, one entry [(song_name, t1)]
    for every fingerprint [(f1, f2, dt, t1)] of every song with that key;
    a key has a bucket exactly when some fingerprint has that key, so no
    bucket is ever empty. *)
Theorem build_song_database_buckets
    (song_fingerprints : list (string * list fingerprint)) (f1 f2 dt : Z) :
  (build_song_database song_fingerprints).1 !! (f1, f2, dt)
  = (if decide (bucket_of song_fingerprints (f1, f2, dt) = []) then None
     else Some (bucket_of song_fingerprints (f1, f2, dt))) ∧
  (∀ bucket,
     (build_song_database song_fingerprints).1 !! (f1, f2, dt) = Some bucket →
     bucket ≠ [] ∧
     ∀ song t,
       (song, t) ∈ bucket ↔
       ∃ fingerprints,
         (song, fingerprints) ∈ song_fingerprints ∧
         (f1, f2, dt, t) ∈ fingerprints) ∧
  (is_Some ((build_song_database song_fingerprints).1 !! (f1, f2, dt)) ↔
   ∃ song fingerprints t,
     (song, fingerprints) ∈ song_fingerprints ∧
     (f1, f2, dt, t) ∈ fingerprints).
Proof.
  assert (Hlook :
    (build_song_database song_fingerprints).1 !! (f1, f2, dt)
    = if decide (bucket_of song_fingerprints (f1, f2, dt) = []) then None
      else Some (bucket_of song_fingerprints (f1, f2, dt))).
  { unfold build_song_database. rewrite build_song_database_fold.
    rewrite lookup_empty. by case_decide. }
  split; [exact Hlook|]. rewrite Hlook. split.
  - intros bucket Hb. case_decide as Hnil; [done|]. injection Hb as <-.
    split; [done|]. intros song t. apply bucket_of_elem.
  - case_decide as Hnil; split.
    + by intros [? ?].
    + intros (song & fps & t & Hitem & Hin). exfalso.
      assert ((song, t) ∈ bucket_of song_fingerprints (f1, f2, dt)) as Helem
        by (apply bucket_of_elem; eauto).
      rewrite Hnil in Helem. by apply elem_of_nil in Helem.
    + intros _.
      destruct (bucket_of song_fingerprints (f1, f2, dt))
        as [|[song t] rest] eqn:Hbucket; [done|].
      assert ((song, t) ∈ bucket_of song_fingerprints (f1, f2, dt)) as Helem
        by (rewrite Hbucket; by left).
      apply bucket_of_elem in Helem as (fps & Hitem & Hin). eauto.
    + eauto.
Qed.

Lemma build_song_database_metadata_fold
    (song_fingerprints : list (string * list fingerprint))
    (db : Database) (metadata : Metadata) (song : string) :
  NoDup song_fingerprints.*1 →
  (fold_left
     (fun '(db, metadata) '(song_name, fingerprints) =>
        (add_fingerprints song_name fingerprints db,
         <[song_name :=
             {["num_fingerprints" := Int (Z.of_nat (length fingerprints))]}]>
           metadata))
     song_fingerprints (db, metadata)).2 !! song
  = match
      (list_to_map song_fingerprints : gmap string (list fingerprint)) !! song
    with
    | Some fingerprints =>
        Some {["num_fingerprints" := Int (Z.of_nat (length fingerprints))]}
    | None => metadata !! song
    end.
Proof.
  revert db metadata.
  induction song_fingerprints as [|[name fps] rest IH]; intros db md Hnd;
    [done|].
  apply NoDup_cons in Hnd as [Hnotin Hnd]. cbn [fold_left].
  rewrite IH by done. cbn [list_to_map foldr].
  destruct (decide (name = song)) as [->|Hne].
  - rewrite not_elem_of_list_to_map_1 by done.
    by rewrite !lookup_insert_eq.
  - rewrite !lookup_insert_ne by done. done.
Qed.

(** X6. The metadata that [build_song_database] returns for song names
    that are pairwise distinct (as the keys of a dict are) records, for
    every song, the number of its fingerprints, and has no other entry. *)
Theorem build_song_database_metadata
    (song_fingerprints : list (string * list fingerprint))
    (Hnames : NoDup song_fingerprints.*1) :
  (∀ song_name fingerprints,
     (song_name, fingerprints) ∈ song_fingerprints →
     (build_song_database song_fingerprints).2 !! song_name
     = Some {["num_fingerprints" := Int (Z.of_nat (length fingerprints))]}) ∧
  (∀ song_name,
     song_name ∉ song_fingerprints.*1 →
     (build_song_database song_fingerprints).2 !! song_name = None).
Proof.
  unfold build_song_database. split.
  - intros name fps Hin. rewrite build_song_database_metadata_fold by done.
    by rewrite (elem_of_list_to_map_1 _ _ _ Hnames Hin).
  - intros name Hnotin. rewrite build_song_database_metadata_fold by done.
    by rewrite not_elem_of_list_to_map_1.
Qed.

Lemma build_song_database_metadata_witness :
  (build_song_database
     [("Song A", [(100, 200, 50, 10); (150, 250, 60, 20)]);
      ("Song B", [(100, 200, 50, 15); (200, 300, 70, 25)])]).2 !! "Song B"
  = Some {["num_fingerprints" := Int 2]}.
Proof.
  refine (proj1 (build_song_database_metadata
                   [("Song A", [(100, 200, 50, 10); (150, 250, 60, 20)]);
                    ("Song B", [(100, 200, 50, 15); (200, 300, 70, 25)])] _)
            "Song B" [(100, 200, 50, 15); (200, 300, 70, 25)] _).
  - apply (bool_decide_unpack _). vm_compute. exact I.
  - right. by left.
Defined.

(** ** More on offset voting *)

Lemma query_multi_song_winner
    (query_fingerprints : list fingerprint) (db : Database) :
  ballots query_fingerprints db ≠ [] →
  ∃ song_name offset pre post,
    query_multi_song query_fingerprints db
    = (Some song_name, Some offset,
       count_votes (song_name, offset) (ballots query_fingerprints db)) ∧
    ballots query_fingerprints db = pre ++ (song_name, offset) :: post ∧
    ((song_name, offset) ∉ pre) ∧
    (∀ key, count_votes key (ballots query_fingerprints db)
            ≤ count_votes (song_name, offset)
                (ballots query_fingerprints db)) ∧
    (∀ key, key ∈ pre →
            count_votes key (ballots query_fingerprints db)
            < count_votes (song_name, offset)
                (ballots query_fingerprints db)).
Proof.
  set (votes_cast := ballots query_fingerprints db).
  intros Hne. unfold query_multi_song. rewrite tally_cast. fold votes_cast.
  destruct (cast votes_cast []) as [|[k n] rest] eqn:Htable.
  { by apply cast_nil_iff in Htable. }
  destruct (max_from k n rest) as [[song offset] score] eqn:Hmax.
  destruct (max_from_spec k n rest (song, offset) score Hmax)
    as (i & Hi & Hbefore & Hall).
  rewrite <- Htable in Hi, Hbefore, Hall.
  pose proof (cast_keys_NoDup votes_cast) as Hnd.
  assert (Hscore : score = count_votes (song, offset) votes_cast).
  { rewrite <- votes_get_cast. symmetry. by eapply votes_get_NoDup. }
  assert (Hkey : (cast votes_cast []).*1 !! i = Some (song, offset)).
  { by rewrite list_lookup_fmap, Hi. }
  destruct (cast_keys_order votes_cast i (song, offset) Hkey)
    as (pre & post & Hsplit & Hpre & Horder).
  exists song, offset, pre, post. rewrite <- Hscore.
  split; [done|]. split; [done|]. split; [done|]. split.
  - intros key. destruct (decide (key ∈ votes_cast)) as [Hin|Hnin].
    + apply cast_keys_elem, list_elem_of_lookup in Hin as [j Hj].
      rewrite list_lookup_fmap in Hj.
      destruct (cast votes_cast [] !! j) as [[k' m]|] eqn:Hj'; [|done].
      simpl in Hj. injection Hj as ->.
      rewrite <- votes_get_cast, (votes_get_NoDup _ j key m Hnd Hj').
      apply (Hall (key, m)). apply list_elem_of_lookup. eauto.
    + rewrite count_votes_not_elem by done. rewrite Hscore.
      apply count_votes_nonneg.
  - intros key Hin. destruct (Horder key Hin) as (j & Hj & Hlook).
    rewrite list_lookup_fmap in Hlook.
    destruct (cast votes_cast [] !! j) as [[k' m]|] eqn:Hj'; [|done].
    simpl in Hlook. injection Hlook as ->.
    rewrite <- votes_get_cast, (votes_get_NoDup _ j key m Hnd Hj').
    apply (Hbefore j (key, m) Hj Hj').
Qed.

Lemma query_multi_song_no_votes
    (query_fingerprints : list fingerprint) (db : Database) :
  ballots query_fingerprints db = [] →
  query_multi_song query_fingerprints db = (None, None, 0).
Proof.
  intros H. unfold query_multi_song. by rewrite tally_cast, H.
Qed.

Lemma ballots_elem (query_fingerprints : list fingerprint) (db : Database)
    (song : string) (offset : Z) :
  (song, offset) ∈ ballots query_fingerprints db ↔
  ∃ f1 f2 dt t_query t_db bucket,
    (f1, f2, dt, t_query) ∈ query_fingerprints ∧
    db !! (f1, f2, dt) = Some bucket ∧
    (song, t_db) ∈ bucket ∧ offset = t_db - t_query.
Proof.
  unfold ballots. rewrite list_elem_of_bind. split.
  - intros ([[[f1 f2] dt] tq] & Hin & Hq).
    apply list_elem_of_fmap in Hin as ([s t_db] & [= -> ->] & Hin).
    destruct (db !! (f1, f2, dt)) as [bucket|] eqn:Hb;
      [|by apply elem_of_nil in Hin].
    simpl in Hin. exists f1, f2, dt, tq, t_db, bucket. done.
  - intros (f1 & f2 & dt & tq & t_db & bucket & Hq & Hb & Hin & ->).
    exists (f1, f2, dt, tq). split; [|done].
    rewrite Hb. simpl. apply list_elem_of_fmap. by exists (song, t_db).
Qed.

Lemma count_votes_pos (key : VoteKey) (l : list VoteKey) :
  key ∈ l → 1 ≤ count_votes key l.
Proof.
  intros Hin. unfold count_votes.
  destruct (filter (fun k => k = key) l) as [|x xs] eqn:E; [|simpl; lia].
  exfalso. eapply filter_nil_not_elem_of; [exact E|reflexivity|done].
Qed.

Lemma count_votes_le_length (key : VoteKey) (l : list VoteKey) :
  count_votes key l ≤ Z.of_nat (length l).
Proof.
  unfold count_votes.
  pose proof (length_filter (fun k => k = key) l). lia.
Qed.

(** X7. A match returned by [query_multi_song] comes from the database:
    the song and the offset are those of an entry [(song_name, t_db)]
    stored under the hash key of some query fingerprint, with
    [offset = t_db - t_query]; and the score is at least 1 and at most the
    number of votes cast. *)
Theorem query_multi_song_sound
    (query_fingerprints : list fingerprint) (db : Database)
    (song_name : string) (offset score : Z)
    (Hres : query_multi_song query_fingerprints db
            = (Some song_name, Some offset, score)) :
  (∃ f1 f2 dt t_query t_db bucket,
     (f1, f2, dt, t_query) ∈ query_fingerprints ∧
     db !! (f1, f2, dt) = Some bucket ∧
     (song_name, t_db) ∈ bucket ∧ offset = t_db - t_query) ∧
  1 ≤ score ≤ Z.of_nat (length (ballots query_fingerprints db)).
Proof.
  destruct (decide (ballots query_fingerprints db = [])) as [Hnil|Hne].
  { by rewrite (query_multi_song_no_votes _ _ Hnil) in Hres. }
  destruct (query_multi_song_winner _ _ Hne)
    as (s & o & pre & post & Hwin & Hsplit & _).
  rewrite Hwin in Hres. injection Hres as -> -> <-.
  assert ((song_name, offset) ∈ ballots query_fingerprints db) as Hin.
  { rewrite Hsplit. apply elem_of_app. right. by left. }
  split; [by apply ballots_elem|].
  split; [by apply count_votes_pos|apply count_votes_le_length].
Qed.

Lemma query_multi_song_sound_witness :
  ∃ f1 f2 dt t_query t_db bucket,
    (f1, f2, dt, t_query) ∈ tie_query ∧
    tie_db !! (f1, f2, dt) = Some bucket ∧
    ("A", t_db) ∈ bucket ∧ 10 = t_db - t_query.
Proof.
  apply (query_multi_song_sound tie_query tie_db "A" 10 2).
  vm_compute. reflexivity.
Defined.

(** X8. On a database without empty buckets, as [build_song_database]
    builds them, [query_multi_song] returns [(None, None, 0)] exactly
    when no hash key of the query is present in the database. *)
Theorem query_multi_song_none_iff
    (query_fingerprints : list fingerprint) (db : Database)
    (Hbuckets : ∀ key bucket, db !! key = Some bucket → bucket ≠ []) :
  query_multi_song query_fingerprints db = (None, None, 0) ↔
  ∀ fp, fp ∈ query_fingerprints → db !! fp_key fp = None.
Proof.
  split.
  - intros Hres fp Hfp.
    destruct (decide (ballots query_fingerprints db = [])) as [Hnil|Hne].
    + destruct (proj1 (ballots_nil_iff _ _) Hnil fp Hfp) as [Hk|Hk]; [done|].
      by destruct (Hbuckets _ _ Hk).
    + destruct (query_multi_song_winner _ _ Hne) as (s & o & ? & ? & Hwin & _).
      by rewrite Hwin in Hres.
  - intros Habsent. apply query_multi_song_no_votes, ballots_nil_iff.
    intros fp Hfp. left. by apply Habsent.
Qed.

Lemma query_multi_song_none_iff_witness :
  query_multi_song [(9, 9, 9, 0)] tie_db = (None, None, 0) ↔
  ∀ fp, fp ∈ [(9, 9, 9, 0)] → tie_db !! fp_key fp = None.
Proof.
  apply (query_multi_song_none_iff [(9, 9, 9, 0)] tie_db).
  intros key bucket. unfold tie_db.
  intros [_ <-]%lookup_singleton_Some. done.
Defined.

(** ** Matching a recording against itself *)

Lemma single_song_bucket (song_name : string)
    (fingerprints : list fingerprint) (key : Z * Z * Z) :
  default [] ((build_song_database [(song_name, fingerprints)]).1 !! key)
  = entries_for song_name fingerprints key.
Proof.
  rewrite build_song_database_single. simpl.
  rewrite add_fingerprints_lookup_eq, lookup_empty.
  case_decide as HE; simpl; [by rewrite HE|done].
Qed.

Lemma length_filter_fmap {A B} (f : A → B) (P : B → Prop)
    `{!∀ y, Decision (P y)} (l : list A) :
  length (filter P (f <$> l)) = length (filter (fun x => P (f x)) l).
Proof.
  induction l as [|x l IH]; [done|]. rewrite fmap_cons.
  destruct (decide (P (f x))) as [Hx|Hx].
  - rewrite !filter_cons_True by done. simpl. by rewrite IH.
  - rewrite !filter_cons_False by done. done.
Qed.

Lemma length_filter_ext {A} (P Q : A → Prop) `{!∀ x, Decision (P x)}
    `{!∀ x, Decision (Q x)} (l : list A) :
  (∀ x, x ∈ l → P x ↔ Q x) →
  length (filter P l) = length (filter Q l).
Proof.
  induction l as [|x l IH]; intros Hext; [done|].
  assert (P x ↔ Q x) as Hx by (apply Hext; by left).
  assert (length (filter P l) = length (filter Q l)) as Hl.
  { apply IH. intros y Hy. apply Hext. by right. }
  destruct (decide (P x)) as [HP|HP].
  - rewrite !filter_cons_True by tauto. simpl. by rewrite Hl.
  - rewrite !filter_cons_False by tauto. done.
Qed.

Lemma length_filter_all {A} (P : A → Prop) `{!∀ x, Decision (P x)}
    (l : list A) :
  (∀ x, x ∈ l → P x) → length (filter P l) = length l.
Proof.
  induction l as [|x l IH]; intros Hall; [done|].
  rewrite filter_cons_True by (apply Hall; by left).
  simpl. f_equal. apply IH. intros y Hy. apply Hall. by right.
Qed.

Lemma length_filter_eq_NoDup {A} `{EqDecision A} (l : list A) (x : A) :
  NoDup l →
  length (filter (fun y => y = x) l) = if decide (x ∈ l) then 1%nat else 0%nat.
Proof.
  intros Hnd. induction Hnd as [|y l Hnotin Hnd IH]; [done|].
  destruct (decide (y = x)) as [->|Hne].
  - rewrite filter_cons_True by done. simpl. rewrite IH.
    rewrite decide_False by done. rewrite decide_True; [done|by left].
  - rewrite filter_cons_False by done. rewrite IH.
    destruct (decide (x ∈ l)) as [Hin|Hnin].
    + rewrite decide_True; [done|by right].
    + rewrite decide_False; [done|].
      intros [?|?]%elem_of_cons; congruence.
Qed.

(** The votes that one query fingerprint gives to [(song_name, d)]: one
    if the fingerprint moved by [d] frames is in the recording. *)
Lemma count_votes_one_query (song_name : string)
    (fingerprints : list fingerprint) (q : fingerprint) (d : Z) :
  NoDup fingerprints →
  count_votes (song_name, d)
    ((fun '(song, t_db) => (song, t_db - fp_t1 q))
       <$> entries_for song_name fingerprints (fp_key q))
  = if decide (fp_shift d q ∈ fingerprints) then 1 else 0.
Proof.
  intros Hnd. unfold count_votes, entries_for.
  rewrite <- list_fmap_compose, length_filter_fmap.
  rewrite list_filter_filter.
  rewrite (length_filter_ext _ (fun e => e = fp_shift d q)).
  - rewrite length_filter_eq_NoDup by done. by case_decide.
  - intros [[[g1 g2] gd] gt] _. destruct q as [[[f1 f2] dt] tq]. simpl.
    split.
    + intros [[= Ht] [= -> -> ->]]. f_equal. lia.
    + intros [= -> -> -> ->]. split; [f_equal; lia|done].
Qed.

Lemma count_votes_app (key : VoteKey) (l1 l2 : list VoteKey) :
  count_votes key (l1 ++ l2) = count_votes key l1 + count_votes key l2.
Proof. unfold count_votes. rewrite filter_app, length_app. lia. Qed.

Lemma ballots_cons (q : fingerprint) (query : list fingerprint)
    (db : Database) :
  ballots (q :: query) db
  = ((fun '(song, t_db) => (song, t_db - fp_t1 q))
       <$> default [] (db !! fp_key q))
    ++ ballots query db.
Proof. by destruct q as [[[f1 f2] dt] tq]. Qed.

Lemma count_votes_single_song (song_name : string)
    (fingerprints : list fingerprint) (query : list fingerprint) (d : Z) :
  NoDup fingerprints →
  count_votes (song_name, d)
    (ballots query (build_song_database [(song_name, fingerprints)]).1)
  = Z.of_nat
      (length (filter (fun q => fp_shift d q ∈ fingerprints) query)).
Proof.
  intros Hnd. induction query as [|q query IH]; [done|].
  rewrite ballots_cons, count_votes_app, IH, single_song_bucket.
  rewrite (count_votes_one_query song_name fingerprints q d Hnd).
  destruct (decide (fp_shift d q ∈ fingerprints)) as [Hin|Hnin].
  - rewrite filter_cons_True by done. simpl length. lia.
  - rewrite filter_cons_False by done. lia.
Qed.

Lemma exists_latest (l : list fingerprint) :
  l ≠ [] → ∃ p, p ∈ l ∧ ∀ q, q ∈ l → fp_t1 q ≤ fp_t1 p.
Proof.
  induction l as [|x l IH]; [done|]. intros _.
  destruct l as [|y l'].
  - exists x. split; [by left|].
    intros q ->%list_elem_of_singleton. lia.
  - destruct (IH ltac:(done)) as (p & Hp & Hmax).
    destruct (Z.le_gt_cases (fp_t1 x) (fp_t1 p)) as [Hle|Hgt].
    + exists p. split; [by right|].
      intros q [->|Hq]%elem_of_cons; [done|by apply Hmax].
    + exists x. split; [by left|].
      intros q [->|Hq]%elem_of_cons; [lia|]. specialize (Hmax q Hq). lia.
Qed.

Lemma exists_earliest (l : list fingerprint) :
  l ≠ [] → ∃ p, p ∈ l ∧ ∀ q, q ∈ l → fp_t1 p ≤ fp_t1 q.
Proof.
  induction l as [|x l IH]; [done|]. intros _.
  destruct l as [|y l'].
  - exists x. split; [by left|].
    intros q ->%list_elem_of_singleton. lia.
  - destruct (IH ltac:(done)) as (p & Hp & Hmin).
    destruct (Z.le_gt_cases (fp_t1 p) (fp_t1 x)) as [Hle|Hgt].
    + exists p. split; [by right|].
      intros q [->|Hq]%elem_of_cons; [done|by apply Hmin].
    + exists x. split; [by left|].
      intros q [->|Hq]%elem_of_cons; [lia|]. specialize (Hmin q Hq). lia.
Qed.

Lemma fp_t1_shift (c : Z) (fp : fingerprint) :
  fp_t1 (fp_shift c fp) = fp_t1 fp + c.
Proof. by destruct fp as [[[f1 f2] dt] t1]. Qed.

(** A finite recording is not invariant under a time shift. *)
Lemma exists_unshiftable (l : list fingerprint) (c : Z) :
  l ≠ [] → c ≠ 0 → ∃ p, p ∈ l ∧ fp_shift c p ∉ l.
Proof.
  intros Hne Hc. destruct (Z.lt_ge_cases 0 c) as [Hpos|Hneg].
  - destruct (exists_latest l Hne) as (p & Hp & Hmax).
    exists p. split; [done|]. intros Hin. specialize (Hmax _ Hin).
    rewrite fp_t1_shift in Hmax. lia.
  - destruct (exists_earliest l Hne) as (p & Hp & Hmin).
    exists p. split; [done|]. intros Hin. specialize (Hmin _ Hin).
    rewrite fp_t1_shift in Hmin. lia.
Qed.

Lemma count_votes_shifted_copy (song_name : string)
    (fingerprints : list fingerprint) (a d : Z) :
  NoDup fingerprints →
  count_votes (song_name, d)
    (ballots (shift_query a fingerprints)
       (build_song_database [(song_name, fingerprints)]).1)
  = Z.of_nat
      (length (filter (fun p => fp_shift (d - a) p ∈ fingerprints)
                 fingerprints)).
Proof.
  intros Hnd. rewrite count_votes_single_song by done.
  unfold shift_query. rewrite length_filter_fmap. f_equal.
  apply length_filter_ext. intros [[[f1 f2] dt] t1] _. simpl.
  by replace (t1 - a + d) with (t1 + (d - a)) by lia.
Qed.

Lemma ballots_single_song_name (song_name : string)
    (fingerprints query : list fingerprint) (song : string) (offset : Z) :
  (song, offset)
    ∈ ballots query (build_song_database [(song_name, fingerprints)]).1 →
  song = song_name.
Proof.
  intros (f1 & f2 & dt & tq & t_db & bucket & _ & Hb & Hin & _)%ballots_elem.
  pose proof (single_song_bucket song_name fingerprints (f1, f2, dt)) as Hd.
  rewrite Hb in Hd. simpl in Hd. subst bucket.
  by apply entries_for_elem in Hin as [-> _].
Qed.

Lemma shifted_copy_winner
    (song_name : string) (fingerprints : list fingerprint) (a : Z)
    (Hdistinct : NoDup fingerprints) (Hnonempty : fingerprints ≠ []) :
  query_multi_song (shift_query a fingerprints)
    (build_song_database [(song_name, fingerprints)]).1
  = (Some song_name, Some a, Z.of_nat (length fingerprints)).
Proof.
  set (db := (build_song_database [(song_name, fingerprints)]).1).
  set (votes_cast := ballots (shift_query a fingerprints) db).
  assert (Hself : count_votes (song_name, a) votes_cast
                  = Z.of_nat (length fingerprints)).
  { unfold votes_cast, db. rewrite count_votes_shifted_copy by done.
    f_equal. apply length_filter_all.
    intros [[[f1 f2] dt] t1] Hin. simpl.
    by replace (t1 + (a - a)) with t1 by lia. }
  assert (Hother : ∀ d, d ≠ a →
            count_votes (song_name, d) votes_cast
            < Z.of_nat (length fingerprints)).
  { intros d Hd. unfold votes_cast, db.
    rewrite count_votes_shifted_copy by done.
    destruct (exists_unshiftable fingerprints (d - a) Hnonempty ltac:(lia))
      as (p & Hp & Hnot).
    pose proof (length_filter_lt
                  (fun p => fp_shift (d - a) p ∈ fingerprints)
                  fingerprints p Hp Hnot).
    lia. }
  assert (0 < Z.of_nat (length fingerprints)) as Hpos.
  { destruct fingerprints; [done|simpl; lia]. }
  assert (votes_cast ≠ []) as Hne.
  { intros Hnil. rewrite Hnil in Hself. unfold count_votes in Hself.
    simpl in Hself. lia. }
  destruct (query_multi_song_winner _ _ Hne)
    as (s & o & pre & post & Hwin & Hsplit & _ & Hmax & _).
  fold db in Hwin, Hsplit, Hmax. fold votes_cast in Hwin, Hsplit, Hmax.
  assert ((s, o) ∈ votes_cast) as Hin.
  { rewrite Hsplit. apply elem_of_app. right. by left. }
  apply ballots_single_song_name in Hin as ->.
  specialize (Hmax (song_name, a)).
  destruct (decide (o = a)) as [->|Ho].
  - by rewrite Hwin, Hself.
  - specialize (Hother o Ho). lia.
Qed.

(** X9. Matching is time-shift invariant and identifies a recording from
    its own fingerprints: when the database holds one song whose
    fingerprints are distinct and not empty, a query made of the same
    fingerprints with every anchor time moved back by [a] frames returns
    that song, the offset [a] and a score equal to the number of
    fingerprints (with [a = 0]: the recording queried against itself). *)
Theorem query_shifted_copy_identifies
    (song_name : string) (fingerprints : list fingerprint) (a : Z)
    (Hdistinct : NoDup fingerprints) (Hnonempty : fingerprints ≠ []) :
  query_multi_song (shift_query a fingerprints)
    (build_song_database [(song_name, fingerprints)]).1
  = (Some song_name, Some a, Z.of_nat (length fingerprints)).
Proof. by apply shifted_copy_winner. Qed.

Lemma query_shifted_copy_identifies_witness :
  query_multi_song
    (shift_query 7 [(1, 2, 3, 10); (1, 2, 3, 20); (4, 5, 6, 12)])
    (build_song_database
       [("Song A", [(1, 2, 3, 10); (1, 2, 3, 20); (4, 5, 6, 12)])]).1
  = (Some "Song A", Some 7, 3).
Proof.
  apply (query_shifted_copy_identifies "Song A"
           [(1, 2, 3, 10); (1, 2, 3, 20); (4, 5, 6, 12)] 7).
  - apply (bool_decide_unpack _). vm_compute. exact I.
  - done.
Defined.

(** ** The single-song interface *)

(** The single-song check of [test_validation.py]. *)
Example query_single_song_test :
  query_single_song [(100, 200, 50, 50); (150, 250, 60, 60)]
    (build_single_song_db
       [(100, 200, 50, 100); (150, 250, 60, 110); (200, 300, 70, 120)])
  = (Some 50, 2).
Proof. vm_compute. reflexivity. Qed.

Lemma build_single_song_db_label (song_name : string)
    (fingerprints : list fingerprint) :
  (build_song_database [(song_name, fingerprints)]).1
  = label_db song_name (build_single_song_db fingerprints).
Proof.
  rewrite build_song_database_single. simpl.
  unfold add_fingerprints, build_single_song_db.
  assert (∀ sdb : SingleDatabase,
    fold_left
      (fun db '(f1, f2, dt, t1) => db_append db (f1, f2, dt) (song_name, t1))
      fingerprints (label_db song_name sdb)
    = label_db song_name
        (fold_left
           (fun db '(f1, f2, dt, t1) =>
              <[(f1, f2, dt) := default [] (db !! (f1, f2, dt)) ++ [t1]]> db)
           fingerprints sdb)) as Hgen.
  { induction fingerprints as [|[[[f1 f2] dt] t1] fps IH]; intros sdb;
      [done|].
    cbn [fold_left]. rewrite <- IH. f_equal.
    unfold db_append, label_db. rewrite fmap_insert, lookup_fmap. f_equal.
    destruct (sdb !! (f1, f2, dt)) as [times|]; simpl; [|done].
    by rewrite fmap_app. }
  rewrite <- Hgen. unfold label_db. by rewrite fmap_empty.
Qed.

Lemma vote_label (song_name : string) (offset : Z) (votes : OffsetVotes) :
  vote (song_name, offset)
    ((fun '(o, n) => ((song_name, o), n)) <$> votes)
  = (fun '(o, n) => ((song_name, o), n)) <$> vote_offset offset votes.
Proof.
  induction votes as [|[k n] rest IH]; [done|].
  rewrite fmap_cons. cbn [vote vote_offset].
  destruct (decide (k = offset)) as [->|Hne].
  - by rewrite !bool_decide_eq_true_2.
  - rewrite !bool_decide_eq_false_2 by congruence.
    by rewrite fmap_cons, IH.
Qed.

Lemma tally_label (song_name : string) (query : list fingerprint)
    (db : SingleDatabase) :
  tally query (label_db song_name db)
  = (fun '(o, n) => ((song_name, o), n)) <$> tally_offsets query db.
Proof.
  unfold tally, tally_offsets.
  assert (∀ votes : OffsetVotes,
    fold_left
      (fun votes '(f1, f2, dt, t_query) =>
         match label_db song_name db !! (f1, f2, dt) with
         | Some bucket => vote_bucket t_query bucket votes
         | None => votes
         end)
      query ((fun '(o, n) => ((song_name, o), n)) <$> votes)
    = (fun '(o, n) => ((song_name, o), n))
        <$> fold_left
              (fun offset_votes '(f1, f2, dt, t_query) =>
                 match db !! (f1, f2, dt) with
                 | Some times =>
                     fold_left
                       (fun offset_votes t_db =>
                          vote_offset (t_db - t_query) offset_votes)
                       times offset_votes
                 | None => offset_votes
                 end)
              query votes) as Hgen.
  { induction query as [|[[[f1 f2] dt] tq] query IH]; intros votes; [done|].
    cbn [fold_left]. rewrite <- IH. f_equal.
    unfold label_db. rewrite lookup_fmap.
    destruct (db !! (f1, f2, dt)) as [times|]; simpl; [|done].
    unfold vote_bucket. revert votes.
    induction times as [|t times IHt]; intros votes; [done|].
    simpl. by rewrite vote_label, IHt. }
  exact (Hgen []).
Qed.

Lemma max_from_label (song_name : string) (best best_n : Z)
    (rest : OffsetVotes) :
  max_from (song_name, best) best_n
    ((fun '(o, n) => ((song_name, o), n)) <$> rest)
  = let '(o, n) := max_offset_from best best_n rest in ((song_name, o), n).
Proof.
  revert best best_n. induction rest as [|[k n] rest IH]; intros best best_n;
    [done|].
  simpl. destruct (best_n <? n); apply IH.
Qed.

Lemma query_single_song_label (song_name : string)
    (query : list fingerprint) (db : SingleDatabase) :
  query_multi_song query (label_db song_name db)
  = match query_single_song query db with
    | (Some offset, score) => (Some song_name, Some offset, score)
    | (None, _) => (None, None, 0)
    end.
Proof.
  unfold query_multi_song, query_single_song. rewrite tally_label.
  destruct (tally_offsets query db) as [|[k n] rest]; [done|].
  simpl. rewrite max_from_label.
  by destruct (max_offset_from k n rest) as [o s].
Qed.

(** X10. The legacy single-song interface agrees with the multi-song
    one: querying the database that [build_single_song_db] builds from a
    song's fingerprints gives the same offset and score as querying the
    one-song database of [build_song_database], which adds the song
    name. *)
Theorem single_and_multi_song_agree
    (song_name : string) (fingerprints query_fingerprints : list fingerprint) :
  query_multi_song query_fingerprints
    (build_song_database [(song_name, fingerprints)]).1
  = match
      query_single_song query_fingerprints (build_single_song_db fingerprints)
    with
    | (Some offset, score) => (Some song_name, Some offset, score)
    | (None, _) => (None, None, 0)
    end.
Proof. by rewrite build_single_song_db_label, query_single_song_label. Qed.

Lemma ballots_label (song_name : string) (query : list fingerprint)
    (db : SingleDatabase) :
  ballots query (label_db song_name db)
  = (fun o : Z => (song_name, o)) <$> offset_ballots query db.
Proof.
  unfold offset_ballots.
  induction query as [|[[[f1 f2] dt] tq] query IH]; [done|].
  rewrite ballots_cons. cbn [mbind list_bind].
  rewrite fmap_app, <- IH. f_equal.
  unfold label_db. simpl. rewrite lookup_fmap.
  destruct (db !! (f1, f2, dt)) as [times|]; simpl; [|done].
  rewrite <- !list_fmap_compose. done.
Qed.

Lemma count_votes_label (song_name : string) (offset : Z) (l : list Z) :
  count_votes (song_name, offset) ((fun o : Z => (song_name, o)) <$> l)
  = count_offset offset l.
Proof.
  unfold count_votes, count_offset. rewrite length_filter_fmap. f_equal.
  apply length_filter_ext. intros o _. split; [by intros [= ->]|by intros ->].
Qed.

(** X11. [query_single_song] returns [(None, 0)] when the query casts no
    vote; otherwise it returns the offset [t_db - t_query] with the most
    votes and that number of votes, and among offsets with equally many
    votes the one whose first vote came first. *)
Theorem query_single_song_argmax
    (query_fingerprints : list fingerprint) (db : SingleDatabase) :
  let votes_cast := offset_ballots query_fingerprints db in
  (votes_cast = [] → query_single_song query_fingerprints db = (None, 0)) ∧
  (votes_cast ≠ [] →
   ∃ offset pre post,
     query_single_song query_fingerprints db
     = (Some offset, count_offset offset votes_cast) ∧
     votes_cast = pre ++ offset :: post ∧
     (offset ∉ pre) ∧
     (∀ o, count_offset o votes_cast ≤ count_offset offset votes_cast) ∧
     (∀ o, o ∈ pre →
           count_offset o votes_cast < count_offset offset votes_cast)).
Proof.
  intros votes_cast. unfold votes_cast. clear votes_cast.
  pose proof (ballots_label EmptyString query_fingerprints db) as Hballots.
  pose proof (query_single_song_label EmptyString query_fingerprints db)
    as Hlabel.
  split.
  - intros Hnil. rewrite Hnil in Hballots.
    pose proof (tally_label EmptyString query_fingerprints db) as Htally.
    rewrite tally_cast, Hballots in Htally. simpl in Htally.
    symmetry in Htally. apply fmap_nil_inv in Htally.
    unfold query_single_song. by rewrite Htally.
  - intros Hne.
    assert (ballots query_fingerprints (label_db EmptyString db) ≠ []) as Hne'.
    { rewrite Hballots. by intros ?%fmap_nil_inv. }
    destruct (query_multi_song_winner _ _ Hne')
      as (s & o & pre & post & Hwin & Hsplit & Hpre & Hmax & Hbefore).
    rewrite Hballots in Hwin, Hsplit, Hmax, Hbefore.
    apply fmap_app_inv in Hsplit as (pre' & rest' & -> & Hrest & Hcast).
    symmetry in Hrest.
    apply fmap_cons_inv in Hrest as (o' & post' & [= -> ->] & -> & ->).
    rewrite Hwin in Hlabel.
    destruct (query_single_song query_fingerprints db) as [[offset|] score];
      [|done].
    injection Hlabel as Hoffset Hscore. subst o'.
    rewrite count_votes_label in Hscore.
    exists offset, pre', post'.
    split; [by rewrite Hscore|]. split; [done|]. split.
    { intros Hin. apply Hpre. by apply list_elem_of_fmap_2. }
    split.
    + intros k. specialize (Hmax (EmptyString, k)).
      by rewrite !count_votes_label in Hmax.
    + intros k Hk.
      specialize (Hbefore (EmptyString, k)
                    (list_elem_of_fmap_2 _ _ _ Hk)).
      by rewrite !count_votes_label in Hbefore.
Qed.

Lemma query_single_song_argmax_witness :
  query_single_song [(100, 200, 50, 50); (150, 250, 60, 60)]
    (build_single_song_db
       [(100, 200, 50, 100); (150, 250, 60, 110); (200, 300, 70, 120)])
  = (Some 50, 2) ∧
  ∃ offset pre post,
    offset_ballots [(100, 200, 50, 50); (150, 250, 60, 60)]
      (build_single_song_db
         [(100, 200, 50, 100); (150, 250, 60, 110); (200, 300, 70, 120)])
    = pre ++ offset :: post ∧ offset ∉ pre.
Proof.
  split; [vm_compute; reflexivity|].
  destruct (query_single_song_argmax
              [(100, 200, 50, 50); (150, 250, 60, 60)]
              (build_single_song_db
                 [(100, 200, 50, 100); (150, 250, 60, 110);
                  (200, 300, 70, 120)])) as [_ H].
  destruct H as (offset & pre & post & _ & Hsplit & Hpre & _).
  - vm_compute. discriminate.
  - by exists offset, pre, post.
Defined.

(** ** The reported position *)

Lemma py_int_abs_div (a b : Z) :
  b ≠ 0 →
  py_int (Qabs (Qdiv (inject_Z a) (inject_Z b))) = Z.abs a / Z.abs b.
Proof.
  intros Hb. unfold py_int, Qdiv, Qmult, Qinv, Qabs, inject_Z.
  destruct b as [|p|p]; [done|..]; simpl Qnum; simpl Qden.
  - rewrite Z.mul_1_r. rewrite Z.quot_div_nonneg by lia. done.
  - replace (a * -1) with (- a) by lia. rewrite Z.abs_opp.
    rewrite Z.quot_div_nonneg by lia. done.
Qed.


Lemma interpret_match_matched_position
    (song : string) (offset score hop_length sr : Z) :
  200 ≤ score → sr ≠ 0 →
  interpret_match (Some song) (Some offset) score hop_length sr
  = Returns (<["matched" := VBool true]>
            (<["song" := VStr song]>
            (<["position_in_song" :=
                 VStr (pretty (Z.abs (offset * hop_length) / Z.abs sr / 60)
                       +:+ ":"
                       +:+ fmt_02d
                             ((Z.abs (offset * hop_length) / Z.abs sr)
                              mod 60))]>
            (<["confidence" := VStr (confidence_label score)]>
            (<["raw_score" := VInt score]> ∅))))).
Proof.
  intros Hscore Hsr. unfold interpret_match. rewrite no_match_eqb.
  rewrite bool_decide_eq_false_2 by lia. simpl.
  unfold truediv. destruct (Z.eqb_spec sr 0) as [|_]; [done|].
  unfold mbind, outcome_bind, seconds_to_mmss.
  by rewrite py_int_abs_div.
Qed.



(** ** More on the service *)

Section ServiceProperties.
Context (signal : Type) (load_audio : string → Z → outcome signal)
  (len : signal → Z)
  (peak_mask :
     signal → Z → Z → Z → Z → param → Z → outcome (list (list bool))).

Lemma add_song_success (s : service) (d : disk)
    (audio_path song_name : string) (sr : Z) (y : signal)
    (fingerprints : list fingerprint) :
  config_int s "sr" = Returns sr → sr ≠ 0 →
  load_audio audio_path sr = Returns y →
  extract_with_config signal peak_mask s y sr = Returns fingerprints →
  add_song signal load_audio len peak_mask s d audio_path song_name
  = (after_add s song_name fingerprints
       (Qdiv (inject_Z (len y)) (inject_Z sr)),
     (save_database
        (after_add s song_name fingerprints
           (Qdiv (inject_Z (len y)) (inject_Z sr))) d).1,
     (true, Z.of_nat (length fingerprints),
      "Successfully added " +:+ song_name)).
Proof.
  intros Hsr Hnonzero Hload Hextract.
  unfold add_song. rewrite Hsr. unfold mbind at 1, outcome_bind at 1.
  rewrite Hload. unfold mbind at 1, outcome_bind at 1.
  rewrite Hextract. unfold mbind, outcome_bind, mret, outcome_ret.
  rewrite build_song_database_single, lookup_singleton_eq.
  unfold truediv. destruct (Z.eqb_spec sr 0) as [|_]; [done|].
  unfold set_metadata, set_db. simpl. rewrite insert_insert_eq.
  fold (song_meta (length fingerprints)
          (Qdiv (inject_Z (len y)) (inject_Z sr))).
  fold (after_add s song_name fingerprints
          (Qdiv (inject_Z (len y)) (inject_Z sr))).
  by destruct (save_database _ d).
Qed.

(** X13. When the configuration has no sampling rate, or decoding the
    file or extracting the fingerprints raises, [add_song] changes neither
    the service nor the disk and returns
    [(False, 0, "Error adding song: ...")] with the text of the exception
    (the [KeyError] of the key ['sr'] in the first case). *)
Theorem add_song_failure (s : service) (d : disk)
    (audio_path song_name : string) (e : exn) :
  ((config s !! "sr" = None ∧ e = KeyError "sr") ∨
   (∃ sr, config_int s "sr" = Returns sr ∧
          load_audio audio_path sr = Raises e) ∨
   (∃ sr y, config_int s "sr" = Returns sr ∧
            load_audio audio_path sr = Returns y ∧
            extract_with_config signal peak_mask s y sr = Raises e)) →
  add_song signal load_audio len peak_mask s d audio_path song_name
  = (s, d, (false, 0, "Error adding song: " +:+ exn_str e)).
Proof.
  unfold add_song.
  intros [[Hsr ->]|[(sr & Hsr & Hload)|(sr & y & Hsr & Hload & Hextract)]].
  - unfold config_int, getitem. by rewrite Hsr.
  - rewrite Hsr. unfold mbind at 1, outcome_bind at 1. by rewrite Hload.
  - rewrite Hsr. unfold mbind at 1, outcome_bind at 1.
    rewrite Hload. unfold mbind at 1, outcome_bind at 1.
    by rewrite Hextract.
Qed.

Lemma merge_keeps_index_consistent (s : service) (song_name : string)
    (fingerprints : list fingerprint) (metadata' : Metadata) :
  index_consistent s →
  (∀ song, is_Some (metadata s !! song) → is_Some (metadata' !! song)) →
  is_Some (metadata' !! song_name) →
  index_consistent
    (AudioFingerprintingService (db_path s)
       (merge_db (db s) (add_fingerprints song_name fingerprints ∅))
       metadata' (config s)).
Proof.
  intros Hs Hkeep Hnew [[f1 f2] dt] bucket. simpl.
  rewrite merge_db_lookup.
  destruct (db s !! (f1, f2, dt)) as [old|] eqn:Hold.
  - intros [= <-]. destruct (Hs _ _ Hold) as [Hne Hmeta]. split.
    + intros [? _]%app_nil. done.
    + intros song t [Hin|Hin]%elem_of_app.
      * apply Hkeep. by eapply Hmeta.
      * by apply entries_for_elem in Hin as [-> _].
  - case_decide as HE; [done|]. intros [= <-]. split; [done|].
    intros song t Hin. by apply entries_for_elem in Hin as [-> _].
Qed.

(** X14. [add_song] keeps the index consistent, whatever its outcome:
    if no bucket is empty and every entry names a song that has metadata
    before the call, the same holds after it. *)
Theorem add_song_keeps_index_consistent (s : service) (d : disk)
    (audio_path song_name : string) (Hs : index_consistent s) :
  index_consistent
    (add_song signal load_audio len peak_mask s d audio_path song_name).1.1.
Proof.
  unfold add_song.
  destruct (config_int s "sr" ≫= _) as [[[sr y] fps]|e]; [|done].
  rewrite build_song_database_single, lookup_singleton_eq.
  destruct (truediv (len y) sr) as [duration|e].
  - destruct (save_database _ d) as [d' saved].
    unfold set_metadata, set_db. simpl.
    apply (merge_keeps_index_consistent s); [done|..].
    + intros song Hsong. destruct (decide (song = song_name)) as [->|Hne].
      * rewrite lookup_insert_eq. eauto.
      * by rewrite !lookup_insert_ne.
    + rewrite lookup_insert_eq. eauto.
  - unfold set_metadata, set_db. simpl.
    apply (merge_keeps_index_consistent s); [done|..].
    + intros song Hsong. destruct (decide (song = song_name)) as [->|Hne].
      * rewrite lookup_insert_eq. eauto.
      * by rewrite !lookup_insert_ne.
    + rewrite lookup_insert_eq. eauto.
Qed.

(** X15. A successful [add_song] on a writable disk is persistent: a
    service started afterwards on the same path loads exactly the index
    and the metadata the call left in memory. On a read-only disk the
    call still reports success, although nothing is written. *)
Theorem add_song_persists (s : service) (d : disk)
    (audio_path song_name : string) (sr : Z) (y : signal)
    (fingerprints : list fingerprint)
    (Hsr : config_int s "sr" = Returns sr) (Hnonzero : sr ≠ 0)
    (Hload : load_audio audio_path sr = Returns y)
    (Hextract : extract_with_config signal peak_mask s y sr
                = Returns fingerprints) :
  let run :=
    add_song signal load_audio len peak_mask s d audio_path song_name in
  run.2 = (true, Z.of_nat (length fingerprints),
           "Successfully added " +:+ song_name) ∧
  (read_only d = false →
   db (init (db_path s) run.1.2) = db run.1.1 ∧
   metadata (init (db_path s) run.1.2) = metadata run.1.1) ∧
  (read_only d = true → run.1.2 = d).
Proof.
  intros run. unfold run.
  rewrite (add_song_success s d audio_path song_name sr y fingerprints)
    by done.
  simpl. split; [done|]. unfold init, load_database, save_database. split.
  - intros ->. simpl. rewrite lookup_insert_eq. done.
  - intros ->. done.
Qed.

Lemma extract_with_config_inv (s : service) (y : signal) (sr : Z)
    (fingerprints : list fingerprint) :
  extract_with_config signal peak_mask s y sr = Returns fingerprints →
  NoDup fingerprints ∧
  ∃ n_fft hop_ratio,
    config_int s "n_fft" = Returns n_fft ∧
    config_int s "hop_ratio" = Returns hop_ratio ∧
    floordiv n_fft hop_ratio = Returns (n_fft / hop_ratio).
Proof.
  unfold extract_with_config, mbind, outcome_bind. intros Hextract.
  destruct (config_int s "n_fft") as [n_fft|]; [|done].
  destruct (config_int s "hop_ratio") as [hop_ratio|]; [|done].
  repeat (case_match; [|done]).
  apply extract_fingerprints_dt_max in Hextract
    as (peaks & dt_max & Hratio & _ & _ & ->).
  split.
  - apply pair_peaks_NoDup, peak_lt_NoDup, peak_list_strictly_sorted.
  - exists n_fft, hop_ratio. split; [done|]. split; [done|].
    unfold floordiv. by destruct (Z.eqb_spec hop_ratio 0).
Qed.

Lemma recognize_try_success (s : service) (audio_path : string) (sr : Z)
    (y : signal) (fingerprints : list fingerprint) :
  config_int s "sr" = Returns sr →
  load_audio audio_path sr = Returns y →
  extract_with_config signal peak_mask s y sr = Returns fingerprints →
  ∃ hop_length,
    recognize_try signal load_audio peak_mask s audio_path
    = let '(song_name, offset, score) :=
        query_multi_song fingerprints (db s) in
      interpret_match song_name offset score hop_length sr.
Proof.
  intros Hsr Hload Hextract.
  destruct (extract_with_config_inv _ _ _ _ Hextract)
    as (_ & n_fft & hop_ratio & Hn & Hh & Hdiv).
  exists (n_fft / hop_ratio). unfold recognize_try.
  rewrite Hsr. unfold mbind at 1, outcome_bind at 1.
  rewrite Hload. unfold mbind at 1, outcome_bind at 1.
  rewrite Hextract. unfold mbind at 1, outcome_bind at 1.
  destruct (query_multi_song fingerprints (db s)) as [[song offset] score].
  rewrite Hn. unfold mbind at 1, outcome_bind at 1.
  rewrite Hh. unfold mbind at 1, outcome_bind at 1.
  rewrite Hdiv. unfold mbind at 1, outcome_bind at 1.
  done.
Qed.

(** X16. When the audio is decoded and fingerprinted without error and
    none of its hash keys is in the index (in particular when the index
    is empty), [recognize_audio] returns the non-match dictionary with
    [raw_score] 0. *)
Theorem recognize_audio_unknown (s : service) (audio_path : string)
    (sr : Z) (y : signal) (fingerprints : list fingerprint)
    (Hsr : config_int s "sr" = Returns sr)
    (Hload : load_audio audio_path sr = Returns y)
    (Hextract : extract_with_config signal peak_mask s y sr
                = Returns fingerprints)
    (Habsent : ∀ fp, fp ∈ fingerprints → db s !! fp_key fp = None) :
  recognize_audio signal load_audio peak_mask s audio_path
  = no_match_result 0.
Proof.
  destruct (recognize_try_success s audio_path sr y fingerprints Hsr Hload
              Hextract) as [hop_length Htry].
  unfold recognize_audio. rewrite Htry.
  rewrite query_multi_song_no_votes.
  - rewrite interpret_match_no_match; [done|]. right. by left.
  - apply ballots_nil_iff. intros fp Hfp. left. by apply Habsent.
Qed.

Lemma shift_query_0 (fingerprints : list fingerprint) :
  shift_query 0 fingerprints = fingerprints.
Proof.
  unfold shift_query. induction fingerprints as [|[[[f1 f2] dt] t1] l IH];
    [done|].
  rewrite fmap_cons, IH. by rewrite Z.sub_0_r.
Qed.

Lemma merge_db_empty (song_name : string) (fingerprints : list fingerprint) :
  merge_db ∅ (add_fingerprints song_name fingerprints ∅)
  = (build_song_database [(song_name, fingerprints)]).1.
Proof.
  rewrite build_song_database_single. simpl. apply map_eq. intros key.
  rewrite merge_db_lookup, add_fingerprints_lookup_eq, !lookup_empty.
  by case_decide.
Qed.

(** X17. A recording is recognised from its own audio: after a
    successful [add_song] into a service whose index was empty,
    [recognize_audio] on the same file scores exactly the number [n] of
    fingerprints that were added; below 200 the answer is the non-match
    dictionary with that score, and from 200 on it names the song at
    position "0:00". *)
Theorem add_then_recognize (s : service) (d : disk)
    (audio_path song_name : string) (sr : Z) (y : signal)
    (fingerprints : list fingerprint)
    (Hempty : db s = ∅)
    (Hsr : config_int s "sr" = Returns sr) (Hnonzero : sr ≠ 0)
    (Hload : load_audio audio_path sr = Returns y)
    (Hextract : extract_with_config signal peak_mask s y sr
                = Returns fingerprints) :
  let s' :=
    (add_song signal load_audio len peak_mask s d audio_path song_name).1.1 in
  let n := Z.of_nat (length fingerprints) in
  (n < 200 →
   recognize_audio signal load_audio peak_mask s' audio_path
   = no_match_result n) ∧
  (200 ≤ n →
   recognize_audio signal load_audio peak_mask s' audio_path
   = <["matched" := VBool true]>
     (<["song" := VStr song_name]>
     (<["position_in_song" := VStr "0:00"]>
     (<["confidence" := VStr (confidence_label n)]>
     (<["raw_score" := VInt n]> ∅))))).
Proof.
  intros s' n. unfold s'.
  rewrite (add_song_success s d audio_path song_name sr y fingerprints)
    by done.
  simpl.
  set (s1 := after_add s song_name fingerprints
               (Qdiv (inject_Z (len y)) (inject_Z sr))).
  destruct (extract_with_config_inv _ _ _ _ Hextract) as [Hnd _].
  destruct (recognize_try_success s1 audio_path sr y fingerprints)
    as [hop_length Htry]; [done..|].
  unfold recognize_audio. rewrite Htry.
  assert (db s1 = (build_song_database [(song_name, fingerprints)]).1)
    as ->.
  { unfold s1, after_add. simpl. rewrite Hempty. apply merge_db_empty. }
  destruct (decide (fingerprints = [])) as [Hnil|Hne].
  - subst fingerprints. split; [|simpl in n; lia]. intros _.
    rewrite query_multi_song_no_votes by done.
    rewrite interpret_match_no_match; [done|]. right. by left.
  - replace (query_multi_song fingerprints
               (build_song_database [(song_name, fingerprints)]).1)
      with (query_multi_song (shift_query 0 fingerprints)
              (build_song_database [(song_name, fingerprints)]).1)
      by (by rewrite shift_query_0).
    rewrite shifted_copy_winner by done. fold n. split.
    + intros Hlow. rewrite interpret_match_no_match; [done|]. by left.
    + intros Hhigh.
      rewrite (interpret_match_matched_position song_name 0 n hop_length sr)
        by done.
      rewrite Z.mul_0_l. simpl Z.abs. rewrite Zdiv_0_l. done.
Qed.

Lemma length_filter_fst {B} (l : list (string * B)) (k : string) :
  length (filter (fun p => p.1 = k) l)
  = length (filter (fun x => x = k) l.*1).
Proof.
  induction l as [|[x b] l IH]; [done|]. rewrite fmap_cons. simpl.
  destruct (decide (x = k)) as [->|Hne].
  - rewrite !filter_cons_True by done. simpl. by rewrite IH.
  - rewrite !filter_cons_False by done. done.
Qed.

Lemma song_entry_name (song_name : string) (meta : gmap string num) :
  song_entry song_name meta !! "name" = Some (LStr song_name).
Proof. unfold song_entry. by rewrite lookup_insert_eq. Qed.

Lemma songs_count_by_name (s : service) (song_name : string) :
  length (filter (fun entry => entry !! "name" = Some (LStr song_name))
            (songs (get_songs_list s)))
  = if decide (is_Some (metadata s !! song_name)) then 1%nat else 0%nat.
Proof.
  unfold get_songs_list. simpl. rewrite length_filter_fmap.
  rewrite (length_filter_ext _ (fun p => p.1 = song_name)).
  - rewrite length_filter_fst.
    rewrite length_filter_eq_NoDup by apply NoDup_fst_map_to_list.
    destruct (decide (song_name ∈ (map_to_list (metadata s)).*1))
      as [Hin|Hnin]; case_decide as Hsome; try done.
    + exfalso. apply Hsome.
      apply list_elem_of_fmap in Hin as ([k meta] & -> & Hin).
      apply elem_of_map_to_list in Hin. eauto.
    + exfalso. apply Hnin. destruct Hsome as [meta Hmeta].
      apply list_elem_of_fmap. exists (song_name, meta). split; [done|].
      by apply elem_of_map_to_list.
  - intros [k meta] _. rewrite song_entry_name. simpl.
    split; [by intros [= ->]|by intros ->].
Qed.

(** X18. [get_songs_list] lists the metadata: every song with metadata
    has its entry (name, fingerprint count, duration), every entry comes
    from the metadata, each name is listed once, [total_songs] is the
    number of songs with metadata and [total_hashes] the number of hash
    keys of the index. *)
Theorem get_songs_list_lists_metadata (s : service) :
  (∀ entry,
     entry ∈ songs (get_songs_list s) ↔
     ∃ song_name meta,
       metadata s !! song_name = Some meta ∧
       entry = song_entry song_name meta) ∧
  (∀ song_name,
     length (filter (fun entry => entry !! "name" = Some (LStr song_name))
               (songs (get_songs_list s)))
     = if decide (is_Some (metadata s !! song_name)) then 1%nat else 0%nat) ∧
  total_songs (get_songs_list s) = Z.of_nat (size (metadata s)) ∧
  total_hashes (get_songs_list s) = Z.of_nat (size (db s)).
Proof.
  split; [|split; [apply songs_count_by_name|split]].
  - intros entry. unfold get_songs_list. simpl.
    rewrite list_elem_of_fmap. split.
    + intros ([name meta] & -> & Hin). apply elem_of_map_to_list in Hin.
      eauto.
    + intros (name & meta & Hmeta & ->). exists (name, meta).
      split; [done|]. by apply elem_of_map_to_list.
  - unfold get_songs_list. simpl.
    by rewrite length_fmap, length_map_to_list.
  - done.
Qed.

(** X19. After a successful [add_song] the song is listed exactly once,
    with the fingerprint count that the call returned and the duration
    [len(y) / sr]. *)
Theorem add_then_list (s : service) (d : disk)
    (audio_path song_name : string) (sr : Z) (y : signal)
    (fingerprints : list fingerprint)
    (Hsr : config_int s "sr" = Returns sr) (Hnonzero : sr ≠ 0)
    (Hload : load_audio audio_path sr = Returns y)
    (Hextract : extract_with_config signal peak_mask s y sr
                = Returns fingerprints) :
  let run :=
    add_song signal load_audio len peak_mask s d audio_path song_name in
  ∃ count entry,
    run.2 = (true, count, "Successfully added " +:+ song_name) ∧
    entry ∈ songs (get_songs_list run.1.1) ∧
    entry !! "name" = Some (LStr song_name) ∧
    entry !! "fingerprints_count" = Some (LNum (Int count)) ∧
    entry !! "duration_seconds"
    = Some (LNum (Float (Qdiv (inject_Z (len y)) (inject_Z sr)))) ∧
    length (filter (fun entry => entry !! "name" = Some (LStr song_name))
              (songs (get_songs_list run.1.1)))
    = 1%nat.
Proof.
  intros run. unfold run.
  rewrite (add_song_success s d audio_path song_name sr y fingerprints)
    by done.
  simpl.
  set (duration := Qdiv (inject_Z (len y)) (inject_Z sr)).
  set (s1 := after_add s song_name fingerprints duration).
  assert (metadata s1 !! song_name
          = Some (song_meta (length fingerprints) duration)) as Hmeta.
  { unfold s1, after_add. simpl. by rewrite lookup_insert_eq. }
  exists (Z.of_nat (length fingerprints)),
    (song_entry song_name (song_meta (length fingerprints) duration)).
  split; [done|]. split.
  { unfold get_songs_list. simpl. apply list_elem_of_fmap.
    exists (song_name, song_meta (length fingerprints) duration).
    split; [done|]. by apply elem_of_map_to_list. }
  split; [apply song_entry_name|]. split; [done|]. split; [done|].
  pose proof (songs_count_by_name s1 song_name) as Hcount.
  rewrite Hmeta in Hcount. rewrite decide_True in Hcount by eauto.
  exact Hcount.
Qed.

End ServiceProperties.

Lemma add_song_failure_witness :
  add_song (list (list bool)) failing_audio sample_len mask_front_end
    song_a_service song_a_disk "b.wav" "Song B"
  = (song_a_service, song_a_disk,
     (false, 0, "Error adding song: cannot decode")).
Proof.
  apply (add_song_failure (list (list bool)) failing_audio sample_len
           mask_front_end song_a_service song_a_disk "b.wav" "Song B"
           (OtherError "cannot decode")).
  right. left. exists 44100. split; reflexivity.
Defined.

Lemma add_song_keeps_index_consistent_witness :
  index_consistent song_a_service.
Proof.
  apply (add_song_keeps_index_consistent (list (list bool)) sample_audio
           sample_len mask_front_end (init "fingerprint_db.pkl" empty_disk)
           empty_disk "a.wav" "Song A").
  intros key bucket Hlook. vm_compute in Hlook. discriminate.
Defined.

Lemma add_song_persists_witness :
  db (init "fingerprint_db.pkl" song_a_disk) = db song_a_service ∧
  metadata (init "fingerprint_db.pkl" song_a_disk) = metadata song_a_service.
Proof.
  destruct (add_song_persists (list (list bool)) sample_audio sample_len
              mask_front_end (init "fingerprint_db.pkl" empty_disk)
              empty_disk "a.wav" "Song A" 44100 sample_mask
              [(0, 2, 2, 0); (0, 0, 3, 0); (0, 1, 4, 0); (2, 2, 2, 0);
               (2, 0, 3, 0); (2, 1, 4, 0); (1, 0, 2, 1); (1, 1, 3, 1);
               (2, 1, 2, 2)])
    as (_ & Hwritable & _).
  - reflexivity.
  - lia.
  - reflexivity.
  - vm_compute. reflexivity.
  - apply Hwritable. reflexivity.
Defined.

Lemma recognize_audio_unknown_witness :
  recognize_audio (list (list bool)) sample_audio mask_front_end
    (init "fingerprint_db.pkl" empty_disk) "query.wav"
  = no_match_result 0.
Proof.
  apply (recognize_audio_unknown (list (list bool)) sample_audio
           mask_front_end (init "fingerprint_db.pkl" empty_disk) "query.wav"
           44100 sample_mask
           [(0, 2, 2, 0); (0, 0, 3, 0); (0, 1, 4, 0); (2, 2, 2, 0);
            (2, 0, 3, 0); (2, 1, 4, 0); (1, 0, 2, 1); (1, 1, 3, 1);
            (2, 1, 2, 2)]).
  - reflexivity.
  - reflexivity.
  - vm_compute. reflexivity.
  - intros fp _. reflexivity.
Defined.

Lemma add_then_recognize_witness :
  recognize_audio (list (list bool)) sample_audio mask_front_end
    song_a_service "a.wav"
  = no_match_result 9.
Proof.
  destruct (add_then_recognize (list (list bool)) sample_audio sample_len
              mask_front_end (init "fingerprint_db.pkl" empty_disk)
              empty_disk "a.wav" "Song A" 44100 sample_mask
              [(0, 2, 2, 0); (0, 0, 3, 0); (0, 1, 4, 0); (2, 2, 2, 0);
               (2, 0, 3, 0); (2, 1, 4, 0); (1, 0, 2, 1); (1, 1, 3, 1);
               (2, 1, 2, 2)])
    as [Hlow _].
  - reflexivity.
  - reflexivity.
  - lia.
  - reflexivity.
  - vm_compute. reflexivity.
  - apply Hlow. simpl. lia.
Defined.

Lemma add_then_list_witness :
  ∃ entry,
    entry ∈ songs (get_songs_list song_a_service) ∧
    entry !! "name" = Some (LStr "Song A") ∧
    entry !! "fingerprints_count" = Some (LNum (Int 9)).
Proof.
  destruct (add_then_list (list (list bool)) sample_audio sample_len
              mask_front_end (init "fingerprint_db.pkl" empty_disk)
              empty_disk "a.wav" "Song A" 44100 sample_mask
              [(0, 2, 2, 0); (0, 0, 3, 0); (0, 1, 4, 0); (2, 2, 2, 0);
               (2, 0, 3, 0); (2, 1, 4, 0); (1, 0, 2, 1); (1, 1, 3, 1);
               (2, 1, 2, 2)])
    as (count & entry & Hrun & Hin & Hname & Hcount & _).
  - reflexivity.
  - lia.
  - reflexivity.
  - vm_compute. reflexivity.
  - injection Hrun as <-. exists entry. done.
Defined.

Lemma build_song_database_buckets_witness :
  (build_song_database
     [("Song A", [(100, 200, 50, 10); (150, 250, 60, 20)]);
      ("Song B", [(100, 200, 50, 15); (200, 300, 70, 25)])]).1
    !! (100, 200, 50)
  = Some [("Song A", 10); ("Song B", 15)].
Proof.
  destruct (build_song_database_buckets
              [("Song A", [(100, 200, 50, 10); (150, 250, 60, 20)]);
               ("Song B", [(100, 200, 50, 15); (200, 300, 70, 25)])]
              100 200 50) as (Hlook & _).
  rewrite Hlook. vm_compute. reflexivity.
Defined.

(** ** The core's [recognize_audio] *)

(** X20. The core [recognize_audio] identifies a recording from its own
    audio: if it runs without error on an audio signal, then the signal
    has a list of distinct fingerprints such that, for every database,
    the call returns what [query_multi_song] gives for them; and when that
    list is not empty and the database is the one built from it alone,
    the call returns the song, the offset 0 and a score equal to the
    number of fingerprints. *)
Theorem core_recognize_round_trip
    (signal : Type)
    (peak_mask :
       signal → Z → Z → Z → Z → param → Z → outcome (list (list bool)))
    (query_audio : signal) (config : gmap string param) (db0 : Database)
    (result : option string * option Z * Z)
    (Hruns : Matcher.recognize_audio signal peak_mask query_audio db0 config
             = Returns result) :
  ∃ fingerprints,
    NoDup fingerprints ∧
    (∀ db,
       Matcher.recognize_audio signal peak_mask query_audio db config
       = Returns (query_multi_song fingerprints db)) ∧
    (fingerprints ≠ [] →
     ∀ song_name,
       Matcher.recognize_audio signal peak_mask query_audio
         (build_song_database [(song_name, fingerprints)]).1 config
       = Returns (Some song_name, Some 0, Z.of_nat (length fingerprints))).
Proof.
  revert Hruns. unfold Matcher.recognize_audio, mbind, outcome_bind.
  destruct (getitem_int config "sr") as [sr|]; [|done].
  destruct (getitem_int config "n_fft") as [n_fft|]; [|done].
  destruct (getitem_int config "hop_ratio") as [hop_ratio|]; [|done].
  destruct (getitem_int config "freq_neighborhood") as [fnh|]; [|done].
  destruct (getitem_int config "time_neighborhood") as [tnh|]; [|done].
  destruct (Config.getitem config "amplitude_threshold") as [amp|]; [|done].
  destruct (getitem_int config "num_bands") as [num_bands|]; [|done].
  destruct (getitem_int config "fanout") as [fanout|]; [|done].
  destruct (getitem_int config "dt_min") as [dt_min|]; [|done].
  destruct (Config.getitem config "dt_max_seconds") as [dms|]; [|done].
  destruct (extract_fingerprints signal peak_mask query_audio sr n_fft
              hop_ratio fnh tnh amp num_bands fanout dt_min dms)
    as [fps|] eqn:Hextract; [|done].
  intros _. exists fps.
  assert (NoDup fps) as Hnd.
  { apply extract_fingerprints_dt_max in Hextract
      as (peaks & dt_max & _ & _ & _ & ->).
    apply pair_peaks_NoDup, peak_lt_NoDup, peak_list_strictly_sorted. }
  split; [done|]. split; [done|].
  intros Hne song_name. unfold mret, outcome_ret. f_equal.
  rewrite <- (shifted_copy_winner song_name fps 0 Hnd Hne).
  by rewrite shift_query_0.
Qed.

Lemma core_recognize_round_trip_witness :
  ∃ fingerprints,
    NoDup fingerprints ∧
    ∀ db,
      Matcher.recognize_audio (list (list bool)) mask_front_end sample_mask
        db DEFAULT_CONFIG
      = Returns (query_multi_song fingerprints db).
Proof.
  destruct (core_recognize_round_trip (list (list bool)) mask_front_end
              sample_mask DEFAULT_CONFIG ∅ (None, None, 0))
    as (fingerprints & Hnd & Hall & _).
  - vm_compute. reflexivity.
  - exists fingerprints. split; [exact Hnd | exact Hall].
Defined.
